(** * Sound-Threejs: the audio-synchronisation engine of [src/index.js]

    A shallow embedding of the classes [Sound], [Kick] and [Beat] and of
    the properties stated about them.

    Conventions of the embedding.
    - A JavaScript number is an exact rational ([Q]); rounding, infinities
      and NaN produced by arithmetic on doubles are outside the model.  The
      one NaN the code can meet, the conversion of [undefined] in a
      comparison, is kept (see [ToNumber]).
    - Objects mutated in place become records threaded through the
      functions; arrays of registered objects are lists addressed by index.
    - The host (audio context clock, analyser, frame scheduler, console) is
      the record [Host]; calls into user code are recorded in its [log].
    - A JavaScript exception is the [Throws] outcome, carrying the state as
      mutated up to the throw. *)

From Stdlib Require Import QArith Qround ZArith List String Bool.
From Stdlib Require Import Lia Lqa PeanoNat Sorted.
Import ListNotations.
Local Open Scope Q_scope.

(** ** JavaScript values met by the detectors *)

Inductive value : Type :=
| VUndef
| VNull
| VNum (q : Q)
| VNaN.

(** [ToNumber] of ECMAScript on these values; [None] stands for NaN. *)
Definition ToNumber (v : value) : option Q :=
  match v with
  | VUndef => None
  | VNull => Some 0
  | VNum q => Some q
  | VNaN => None
  end.

Definition Qlt_bool (x y : Q) : bool := negb (Qle_bool y x).

(** [a >= b], [a > b] and [a - b] on values: a comparison with NaN on either
    side is false. *)
Definition js_ge (a b : value) : bool :=
  match ToNumber a, ToNumber b with
  | Some x, Some y => Qle_bool y x
  | _, _ => false
  end.

Definition js_gt (a b : value) : bool :=
  match ToNumber a, ToNumber b with
  | Some x, Some y => Qlt_bool y x
  | _, _ => false
  end.

Definition js_sub (a b : value) : value :=
  match ToNumber a, ToNumber b with
  | Some x, Some y => VNum (x - y)
  | _, _ => VNaN
  end.

(** [Math.max(a, b)] on rationals. *)
Definition Math_max (a b : Q) : Q := if Qle_bool a b then b else a.

(** [~~x]: truncation toward zero followed by the wrap-around of ToInt32. *)
Definition Qtrunc (x : Q) : Z := Z.quot (Qnum x) (Zpos (Qden x)).

Definition wrap32 (z : Z) : Z := ((z + 2 ^ 31) mod 2 ^ 32 - 2 ^ 31)%Z.

Definition ToInt32 (x : Q) : Z := wrap32 (Qtrunc x).

(** ** Outcomes: normal completion or a thrown exception *)

Inductive Outcome (S : Type) : Type :=
| Normal (s : S)
| Throws (s : S).
Arguments Normal {S} s.
Arguments Throws {S} s.

Definition final {S} (o : Outcome S) : S :=
  match o with Normal s => s | Throws s => s end.

Definition returned {S} (o : Outcome S) : bool :=
  match o with Normal _ => true | Throws _ => false end.

Definition omap {S T} (g : S -> T) (o : Outcome S) : Outcome T :=
  match o with Normal s => Normal (g s) | Throws s => Throws (g s) end.

Definition obind {S} (o : Outcome S) (k : S -> Outcome S) : Outcome S :=
  match o with Normal s => k s | Throws s => Throws s end.

Notation "o >>= k" := (obind o k) (at level 50, left associativity).

(** ** User callbacks, the trace and the host *)

(** A user-supplied function is opaque: it is known by a name and by
    whether a call to it throws.  It does not reach back into the engine:
    what a callback itself does to the engine (the page's [onceAt]
    callbacks switch detectors on and off) is not part of a call.  A
    statement about a frame pass is about the engine's own code in that
    pass, run with callbacks that leave the engine alone. *)
Record UserCallback : Type := {
  cb_name : string;
  cb_throws : bool
}.

(** Which registered object issued a call (its index in [_sections],
    [_kicks] or [_beats]). *)
Inductive Origin : Type :=
| FromSection (i : nat)
| FromKick (i : nat)
| FromBeat (i : nat).

Inductive Event : Type :=
| Invoked (o : Origin) (cb : UserCallback) (arg : option value)
| ConsoleLog (msg : string) (label : string)
| SourceStart (offset : Q)
| SourceStop.

Record Host : Type := {
  currentTime : Q;                 (* ctx.currentTime *)
  analyser : list Z;               (* what getByteFrequencyData delivers *)
  nextHandle : positive;           (* next requestAnimationFrame id *)
  pendingFrames : list positive;   (* frame requests not yet run or cancelled *)
  log : list Event
}.

Definition emit (e : Event) (h : Host) : Host :=
  {| currentTime := currentTime h; analyser := analyser h;
     nextHandle := nextHandle h; pendingFrames := pendingFrames h;
     log := log h ++ [e] |}.

(** Calling a user function: the call is recorded, then it returns or
    throws. *)
Definition invoke (o : Origin) (cb : UserCallback) (arg : option value)
  (h : Host) : Outcome Host :=
  let h' := emit (Invoked o cb arg) h in
  if cb_throws cb then Throws h' else Normal h'.

(** [f && f(arg)]: nothing happens when the callback is absent. *)
Definition invoke_opt (o : Origin) (cb : option UserCallback)
  (arg : option value) (h : Host) : Outcome Host :=
  match cb with
  | Some f => invoke o f arg h
  | None => Normal h
  end.

Definition requestAnimationFrame (h : Host) : positive * Host :=
  (nextHandle h,
   {| currentTime := currentTime h; analyser := analyser h;
      nextHandle := Pos.succ (nextHandle h);
      pendingFrames := pendingFrames h ++ [nextHandle h];
      log := log h |}).

Definition cancelAnimationFrame (r : positive) (h : Host) : Host :=
  {| currentTime := currentTime h; analyser := analyser h;
     nextHandle := nextHandle h;
     pendingFrames := filter (fun p => negb (Pos.eqb p r)) (pendingFrames h);
     log := log h |}.

(** The loop [for (let i in xs) xs[i].f(...)]: the objects are visited in
    index order; an exception leaves the objects not yet visited as they
    were. *)
Fixpoint for_each {X : Type} (f : nat -> X -> Host -> Outcome (X * Host))
  (i : nat) (xs : list X) (h : Host) : Outcome (list X * Host) :=
  match xs with
  | [] => Normal ([], h)
  | x :: rest =>
      match f i x h with
      | Normal (x', h') =>
          omap (fun '(rest', h'') => (x' :: rest', h''))
               (for_each f (S i) rest h')
      | Throws (x', h') => Throws (x' :: rest, h')
      end
  end.

(** ** class Kick *)

Module Kick.

(** [frequency] is one number or a two-element array. *)
Inductive Frequency : Type :=
| Single (f : Q)
| Range (start stop : Q).

Record t : Type := {
  frequency : Frequency;
  threshold : Q;
  decay : Q;
  onKick : option UserCallback;
  offKick : option UserCallback;
  isOn : bool;
  isKick : bool;
  currentThreshold : value
}.

(** The object literal handed to the constructor and to [set]; an absent
    field is [None]. *)
Record Config : Type := {
  cfg_frequency : option Frequency;
  cfg_threshold : option Q;
  cfg_decay : option Q;
  cfg_onKick : option UserCallback;
  cfg_offKick : option UserCallback
}.

Definition or_default {A} (o : option A) (d : A) : A :=
  match o with Some a => a | None => d end.

Definition or_else {A} (o d : option A) : option A :=
  match o with Some a => Some a | None => d end.

Definition constructor (c : Config) : t :=
  let th := or_default (cfg_threshold c) (3 # 10) in
  {| frequency := or_default (cfg_frequency c) (Range 0 10);
     threshold := th;
     decay := or_default (cfg_decay c) (2 # 100);
     onKick := cfg_onKick c;
     offKick := cfg_offKick c;
     isOn := false;
     isKick := false;
     currentThreshold := VNum th |}.

Definition with_isOn (b : bool) (k : t) : t :=
  {| frequency := frequency k; threshold := threshold k; decay := decay k;
     onKick := onKick k; offKick := offKick k; isOn := b;
     isKick := isKick k; currentThreshold := currentThreshold k |}.

Definition on (k : t) : t := with_isOn true k.
Definition off (k : t) : t := with_isOn false k.

Definition set (c : Config) (k : t) : t :=
  {| frequency := or_default (cfg_frequency c) (frequency k);
     threshold := or_default (cfg_threshold c) (threshold k);
     decay := or_default (cfg_decay c) (decay k);
     onKick := or_else (cfg_onKick c) (onKick k);
     offKick := or_else (cfg_offKick c) (offKick k);
     isOn := isOn k; isKick := isKick k;
     currentThreshold := currentThreshold k |}.

Definition with_currentThreshold (v : value) (k : t) : t :=
  {| frequency := frequency k; threshold := threshold k; decay := decay k;
     onKick := onKick k; offKick := offKick k; isOn := isOn k;
     isKick := isKick k; currentThreshold := v |}.

Definition with_isKick (b : bool) (k : t) : t :=
  {| frequency := frequency k; threshold := threshold k; decay := decay k;
     onKick := onKick k; offKick := offKick k; isOn := isOn k;
     isKick := b; currentThreshold := currentThreshold k |}.

(** [fft[z]] for an integer [z]: [undefined] outside the array. *)
Definition at_index (fft : list Z) (z : Z) : value :=
  if (0 <=? z)%Z && (z <? Z.of_nat (List.length fft))%Z
  then VNum (inject_Z (nth (Z.to_nat z) fft 0%Z))
  else VUndef.

(** [fft[i]] for a number [i]: a property that is not an integer index
    does not exist. *)
Definition at_number (fft : list Z) (i : Q) : value :=
  if Qeq_bool i (inject_Z (Qfloor i)) then at_index fft (Qfloor i)
  else VUndef.

(** The loop [for (i = start, l = stop; i <= l; i++)] of [maxAmplitude];
    [fuel] bounds the number of iterations. *)
Fixpoint scan (fft : list Z) (i l : Q) (max : Q) (fuel : nat) : Q :=
  match fuel with
  | O => max
  | S fuel' =>
      if Qle_bool i l then
        let v := at_number fft i in
        let max' := if js_gt v (VNum max)
                    then match v with VNum q => q | _ => max end
                    else max in
        scan fft (i + 1) l max' fuel'
      else max
  end.

(** Iterations the loop can make from [i] up to [l]. *)
Definition scan_fuel (i l : Q) : nat := Z.to_nat (Qfloor (l - i) + 1).

Definition maxAmplitude (fft : list Z) (frequency : Frequency) : value :=
  match frequency with
  | Single f =>
      if Qlt_bool f (inject_Z (Z.of_nat (List.length fft)))
      then at_index fft (ToInt32 f)
      else VNull
  | Range start stop =>
      VNum (scan fft start stop 0 (scan_fuel start stop))
  end.

Definition calc (self : Origin) (spectrum : list Z) (k : t) (h : Host)
  : Outcome (t * Host) :=
  if negb (isOn k) then Normal (k, h)
  else
    let magnitude := maxAmplitude spectrum (frequency k) in
    if js_ge magnitude (currentThreshold k)
       && js_ge magnitude (VNum (threshold k))
    then
      let k1 := with_currentThreshold magnitude k in
      match invoke_opt self (onKick k1) (Some magnitude) h with
      | Normal h' => Normal (with_isKick true k1, h')
      | Throws h' => Throws (k1, h')
      end
    else
      match invoke_opt self (offKick k) (Some magnitude) h with
      | Normal h' =>
          Normal (with_isKick false
                    (with_currentThreshold
                       (js_sub (currentThreshold k) (VNum (decay k))) k),
                  h')
      | Throws h' => Throws (k, h')
      end.

End Kick.

(** ** class Beat *)

Module Beat.

Record t : Type := {
  factor : Q;
  onBeat : option UserCallback;
  isOn : bool;
  currentTime : Q
}.

Record Config : Type := {
  cfg_factor : option Q;
  cfg_onBeat : option UserCallback
}.

Definition constructor (c : Config) : t :=
  {| factor := Kick.or_default (cfg_factor c) 1;
     onBeat := cfg_onBeat c;
     isOn := false;
     currentTime := 0 |}.

Definition with_isOn (v : bool) (b : t) : t :=
  {| factor := factor b; onBeat := onBeat b; isOn := v;
     currentTime := currentTime b |}.

Definition on (b : t) : t := with_isOn true b.
Definition off (b : t) : t := with_isOn false b.

Definition set (c : Config) (b : t) : t :=
  {| factor := Kick.or_default (cfg_factor c) (factor b);
     onBeat := Kick.or_else (cfg_onBeat c) (onBeat b);
     isOn := isOn b;
     currentTime := currentTime b |}.

Definition with_currentTime (q : Q) (b : t) : t :=
  {| factor := factor b; onBeat := onBeat b; isOn := isOn b;
     currentTime := q |}.

Definition calc (self : Origin) (time beatDuration : Q) (b : t) (h : Host)
  : Outcome (t * Host) :=
  if Qeq_bool time 0 then Normal (b, h)
  else
    let beatDurationFactored := beatDuration * factor b in
    if Qle_bool (currentTime b + beatDurationFactored) time then
      match (if isOn b then invoke_opt self (onBeat b) None h
             else Normal h) with
      | Normal h' =>
          Normal (with_currentTime (currentTime b + beatDurationFactored) b,
                  h')
      | Throws h' => Throws (b, h')
      end
    else Normal (b, h).

End Beat.

(** ** The section objects pushed by [before], [after], [between], [onceAt] *)

(** The closure stored in [condition], by the method that built it. *)
Inductive Condition : Type :=
| CondBefore (time : Q)
| CondAfter (time : Q)
| CondBetween (startTime endTime : Q)
| CondOnce (time : Q).

(** The function stored in [callback]: the user's own, or the wrapper of
    [onceAt] around it. *)
Inductive SectionCallback : Type :=
| Direct (cb : UserCallback)
| OnceWrapper (cb : UserCallback).

Record SectionObj : Type := {
  label : string;
  condition : Condition;
  callback : SectionCallback;
  called : bool
}.

Definition with_called (v : bool) (s : SectionObj) : SectionObj :=
  {| label := label s; condition := condition s; callback := callback s;
     called := v |}.

(** [section.condition()] when [_this.time] reads [now]. *)
Definition eval_condition (now : Q) (s : SectionObj) : bool :=
  match condition s with
  | CondBefore time => Qlt_bool now time
  | CondAfter time => Qlt_bool time now
  | CondBetween startTime endTime =>
      Qlt_bool startTime now && Qlt_bool now endTime
  | CondOnce time => Qlt_bool time now && negb (called s)
  end.

(** [section.callback.call(sound)] for the section at index [i]. *)
Definition run_callback (i : nat) (s : SectionObj) (h : Host)
  : Outcome (SectionObj * Host) :=
  match callback s with
  | Direct cb => omap (fun h' => (s, h')) (invoke (FromSection i) cb None h)
  | OnceWrapper cb =>
      match invoke (FromSection i) cb None
                   (emit (ConsoleLog "once :" (label s)) h) with
      | Normal h' => Normal (with_called true s, h')
      | Throws h' => Throws (s, h')
      end
  end.

(** The body of the first loop of [onUpdate]. *)
Definition section_step (now : Q) (i : nat) (s : SectionObj) (h : Host)
  : Outcome (SectionObj * Host) :=
  if eval_condition now s then run_callback i s h else Normal (s, h).

(** ** Arithmetic on values for [getFrequency]

    [a + b] and [a / b].  JavaScript gives 0/0 as NaN and x/0, for x not 0,
    as an infinity; [getFrequency] divides a sum that is 0 whenever its
    divisor is 0 (lemma [sum_bins_zero_divisor]), so only the NaN is kept
    here. *)
Definition js_add (a b : value) : value :=
  match ToNumber a, ToNumber b with
  | Some x, Some y => VNum (x + y)
  | _, _ => VNaN
  end.

Definition js_div (a b : value) : value :=
  match ToNumber a, ToNumber b with
  | Some x, Some y => if Qeq_bool y 0 then VNaN else VNum (x / y)
  | _, _ => VNaN
  end.

(** The loop [for (var i = freq; i <= endFreq; i++) sum += spectrum[i]]. *)
Fixpoint sum_bins (spectrum : list Z) (i endFreq : Q) (sum : value)
  (fuel : nat) : value :=
  match fuel with
  | O => sum
  | S fuel' =>
      if Qle_bool i endFreq
      then sum_bins spectrum (i + 1) endFreq
             (js_add sum (Kick.at_number spectrum i)) fuel'
      else sum
  end.

(** ** class Sound

    Loading, gain and the debug canvas are left out: no function below
    reads them. *)

Module Sound.

Record t : Type := {
  _bpm : Q;
  _beatDuration : Q;
  _offsetTime : Q;
  _sections : list SectionObj;
  _kicks : list Kick.t;
  _beats : list Beat.t;
  _startTime : Q;
  _pauseTime : Q;
  _isPlaying : bool;
  req : option positive;
  sourceNode : bool
}.

(** The values set by the constructor.  The quotient [60 / bpm] is that
    of the rationals: the engines built here are those with a tempo other
    than 0, where JavaScript's quotient is a number too. *)
Definition constructor (bpm offsetTime : Q) : t :=
  {| _bpm := bpm;
     _beatDuration := 60 / bpm;
     _offsetTime := offsetTime;
     _sections := [];
     _kicks := [];
     _beats := [];
     _startTime := 0;
     _pauseTime := 0;
     _isPlaying := false;
     req := None;
     sourceNode := false |}.

Definition with_sections (v : list SectionObj) (s : t) : t :=
  {| _bpm := _bpm s; _beatDuration := _beatDuration s;
     _offsetTime := _offsetTime s; _sections := v; _kicks := _kicks s;
     _beats := _beats s; _startTime := _startTime s;
     _pauseTime := _pauseTime s; _isPlaying := _isPlaying s; req := req s;
     sourceNode := sourceNode s |}.

Definition with_kicks (v : list Kick.t) (s : t) : t :=
  {| _bpm := _bpm s; _beatDuration := _beatDuration s;
     _offsetTime := _offsetTime s; _sections := _sections s; _kicks := v;
     _beats := _beats s; _startTime := _startTime s;
     _pauseTime := _pauseTime s; _isPlaying := _isPlaying s; req := req s;
     sourceNode := sourceNode s |}.

Definition with_beats (v : list Beat.t) (s : t) : t :=
  {| _bpm := _bpm s; _beatDuration := _beatDuration s;
     _offsetTime := _offsetTime s; _sections := _sections s;
     _kicks := _kicks s; _beats := v; _startTime := _startTime s;
     _pauseTime := _pauseTime s; _isPlaying := _isPlaying s; req := req s;
     sourceNode := sourceNode s |}.

Definition with_req (v : option positive) (s : t) : t :=
  {| _bpm := _bpm s; _beatDuration := _beatDuration s;
     _offsetTime := _offsetTime s; _sections := _sections s;
     _kicks := _kicks s; _beats := _beats s; _startTime := _startTime s;
     _pauseTime := _pauseTime s; _isPlaying := _isPlaying s; req := v;
     sourceNode := sourceNode s |}.

Definition with_sourceNode (v : bool) (s : t) : t :=
  {| _bpm := _bpm s; _beatDuration := _beatDuration s;
     _offsetTime := _offsetTime s; _sections := _sections s;
     _kicks := _kicks s; _beats := _beats s; _startTime := _startTime s;
     _pauseTime := _pauseTime s; _isPlaying := _isPlaying s; req := req s;
     sourceNode := v |}.

Definition with_startTime (v : Q) (s : t) : t :=
  {| _bpm := _bpm s; _beatDuration := _beatDuration s;
     _offsetTime := _offsetTime s; _sections := _sections s;
     _kicks := _kicks s; _beats := _beats s; _startTime := v;
     _pauseTime := _pauseTime s; _isPlaying := _isPlaying s; req := req s;
     sourceNode := sourceNode s |}.

Definition with_pauseTime (v : Q) (s : t) : t :=
  {| _bpm := _bpm s; _beatDuration := _beatDuration s;
     _offsetTime := _offsetTime s; _sections := _sections s;
     _kicks := _kicks s; _beats := _beats s; _startTime := _startTime s;
     _pauseTime := v; _isPlaying := _isPlaying s; req := req s;
     sourceNode := sourceNode s |}.

Definition with_isPlaying (v : bool) (s : t) : t :=
  {| _bpm := _bpm s; _beatDuration := _beatDuration s;
     _offsetTime := _offsetTime s; _sections := _sections s;
     _kicks := _kicks s; _beats := _beats s; _startTime := _startTime s;
     _pauseTime := _pauseTime s; _isPlaying := v; req := req s;
     sourceNode := sourceNode s |}.

(** [get time] *)
Definition time (s : t) (h : Host) : Q :=
  if _isPlaying s then currentTime h - _startTime s
  else _pauseTime s - _startTime s.

Definition push_section (sec : SectionObj) (s : t) : t :=
  with_sections (_sections s ++ [sec]) s.

Definition before (label : string) (time : Q) (callback : UserCallback)
  (s : t) : t :=
  push_section {| label := label; condition := CondBefore time;
                  callback := Direct callback; called := false |} s.

Definition after (label : string) (time : Q) (callback : UserCallback)
  (s : t) : t :=
  push_section {| label := label; condition := CondAfter time;
                  callback := Direct callback; called := false |} s.

Definition between (label : string) (startTime endTime : Q)
  (callback : UserCallback) (s : t) : t :=
  push_section {| label := label; condition := CondBetween startTime endTime;
                  callback := Direct callback; called := false |} s.

Definition onceAt (label : string) (time : Q) (callback : UserCallback)
  (s : t) : t :=
  push_section {| label := label; condition := CondOnce time;
                  callback := OnceWrapper callback; called := false |} s.

(** [getSpectrum]: the analyser's current bytes. *)
Definition getSpectrum (h : Host) : list Z := analyser h.

(** [getFrequency(freq, endFreq = null)]: the parameter takes its default
    when the argument is left out or is [undefined]. *)
Definition getFrequency (freq : Q) (endFreq : value) (h : Host) : value :=
  let endFreq := match endFreq with VUndef => VNull | v => v end in
  let sum := VNum 0 in
  let spectrum := getSpectrum h in
  match endFreq with
  | VUndef => Kick.at_number spectrum freq
  | _ =>
      match ToNumber endFreq with
      | Some e =>
          js_div (sum_bins spectrum freq e sum (Kick.scan_fuel freq e))
                 (VNum (e - freq + 1))
      | None => VNaN
      end
  end.

(** [createKick] and [createBeat] return the new object, here its index in
    the array together with the engine. *)
Definition createKick (c : Kick.Config) (s : t) : nat * t :=
  (List.length (_kicks s), with_kicks (_kicks s ++ [Kick.constructor c]) s).

Definition createBeat (c : Beat.Config) (s : t) : nat * t :=
  (List.length (_beats s), with_beats (_beats s ++ [Beat.constructor c]) s).

Definition onUpdate (s : t) (h : Host) : Outcome (t * Host) :=
  let '(r, h0) := requestAnimationFrame h in
  let s0 := with_req (Some r) s in
  omap (fun '(ss, h1) => (with_sections ss s0, h1))
       (for_each (section_step (time s0 h0)) 0 (_sections s0) h0)
  >>= (fun '(s1, h1) =>
  let spectrum := getSpectrum h1 in
  omap (fun '(ks, h2) => (with_kicks ks s1, h2))
       (for_each (fun i => Kick.calc (FromKick i) spectrum) 0 (_kicks s1) h1))
  >>= (fun '(s2, h2) =>
  let time := Math_max 0 (time s2 h2 - _offsetTime s2) in
  omap (fun '(bs, h3) => (with_beats bs s2, h3))
       (for_each (fun i => Beat.calc (FromBeat i) time (_beatDuration s2))
                 0 (_beats s2) h2)).

Definition cancel_req (s : t) (h : Host) : Host :=
  match req s with
  | Some r => cancelAnimationFrame r h
  | None => h
  end.

Definition play (offset : Q) (s : t) (h : Host) : Outcome (t * Host) :=
  onUpdate s (cancel_req s h)
  >>= (fun '(s1, h1) =>
  let elapseTime := _pauseTime s1 - _startTime s1 + offset in
  Normal (with_sourceNode true
            (with_startTime (currentTime h1 - elapseTime)
               (with_isPlaying true s1)),
          emit (SourceStart elapseTime) h1)).

Definition pause (s : t) (h : Host) : t * Host :=
  let h0 := cancel_req s h in
  let '(s1, h1) :=
    if sourceNode s then (with_sourceNode false s, emit SourceStop h0)
    else (s, h0) in
  (with_isPlaying false (with_pauseTime (currentTime h1) s1), h1).

End Sound.

(** ** The engine in its environment

    What can happen to an engine between its construction and its end:
    time passes, the analyser sees new audio, the page calls the public
    methods, the browser runs a pending frame request. *)

Definition World : Type := (Sound.t * Host)%type.

Inductive Action : Type :=
| Advance (dt : Q)
| Analyse (data : list Z)
| Play (offset : Q)
| Pause
| Frame
| Before (label : string) (time : Q) (cb : UserCallback)
| After (label : string) (time : Q) (cb : UserCallback)
| Between (label : string) (startTime endTime : Q) (cb : UserCallback)
| OnceAt (label : string) (time : Q) (cb : UserCallback)
| CreateKick (c : Kick.Config)
| CreateBeat (c : Beat.Config)
| KickOn (i : nat)
| KickOff (i : nat)
| KickSet (i : nat) (c : Kick.Config)
| BeatOn (i : nat)
| BeatOff (i : nat)
| BeatSet (i : nat) (c : Beat.Config).

Definition advance (dt : Q) (h : Host) : Host :=
  {| currentTime := currentTime h + dt; analyser := analyser h;
     nextHandle := nextHandle h; pendingFrames := pendingFrames h;
     log := log h |}.

Definition analyse (data : list Z) (h : Host) : Host :=
  {| currentTime := currentTime h; analyser := data;
     nextHandle := nextHandle h; pendingFrames := pendingFrames h;
     log := log h |}.

Definition take_frame (h : Host) : option Host :=
  match pendingFrames h with
  | [] => None
  | _ :: rest =>
      Some {| currentTime := currentTime h; analyser := analyser h;
              nextHandle := nextHandle h; pendingFrames := rest;
              log := log h |}
  end.

(** Apply [f] to the object at index [i], if there is one. *)
Fixpoint update_at {X : Type} (i : nat) (f : X -> X) (xs : list X) : list X :=
  match xs, i with
  | [], _ => []
  | x :: rest, O => f x :: rest
  | x :: rest, S j => x :: update_at j f rest
  end.

(** One action.  An exception thrown into the page or into the browser's
    frame dispatch ends that call only: the engine stays as the call left
    it. *)
Definition step (a : Action) (w : World) : World :=
  let '(s, h) := w in
  match a with
  | Advance dt => (s, advance dt h)
  | Analyse data => (s, analyse data h)
  | Play offset => final (Sound.play offset s h)
  | Pause => Sound.pause s h
  | Frame =>
      match take_frame h with
      | Some h' => final (Sound.onUpdate s h')
      | None => w
      end
  | Before l time cb => (Sound.before l time cb s, h)
  | After l time cb => (Sound.after l time cb s, h)
  | Between l t0 t1 cb => (Sound.between l t0 t1 cb s, h)
  | OnceAt l time cb => (Sound.onceAt l time cb s, h)
  | CreateKick c => (snd (Sound.createKick c s), h)
  | CreateBeat c => (snd (Sound.createBeat c s), h)
  | KickOn i => (Sound.with_kicks (update_at i Kick.on (Sound._kicks s)) s, h)
  | KickOff i =>
      (Sound.with_kicks (update_at i Kick.off (Sound._kicks s)) s, h)
  | KickSet i c =>
      (Sound.with_kicks (update_at i (Kick.set c) (Sound._kicks s)) s, h)
  | BeatOn i => (Sound.with_beats (update_at i Beat.on (Sound._beats s)) s, h)
  | BeatOff i =>
      (Sound.with_beats (update_at i Beat.off (Sound._beats s)) s, h)
  | BeatSet i c =>
      (Sound.with_beats (update_at i (Beat.set c) (Sound._beats s)) s, h)
  end.

Definition run (acts : list Action) (w : World) : World :=
  fold_left (fun w a => step a w) acts w.

(** The observable elapsed time of a world. *)
Definition elapsed (w : World) : Q := Sound.time (fst w) (snd w).

(** A host as the page finds it: nothing requested, nothing logged. *)
Definition fresh_host (now : Q) (data : list Z) : Host :=
  {| currentTime := now; analyser := data; nextHandle := 1%positive;
     pendingFrames := []; log := [] |}.

(** ** Observations used by the statements *)

(** Whether the optional callback, if called, throws. *)
Definition throws_opt (cb : option UserCallback) : bool :=
  match cb with Some f => cb_throws f | None => false end.

(** The trace left by [f && f(arg)]. *)
Definition calls (o : Origin) (cb : option UserCallback) (arg : option value)
  : list Event :=
  match cb with Some f => [Invoked o f arg] | None => [] end.

(** A detector fed one spectrum per frame: the kick flag and the adaptive
    threshold after each frame. *)
Fixpoint kick_frames (self : Origin) (spectra : list (list Z)) (k : Kick.t)
  (h : Host) : list (bool * value) :=
  match spectra with
  | [] => []
  | spectrum :: rest =>
      let '(k', h') := final (Kick.calc self spectrum k h) in
      (Kick.isKick k', Kick.currentThreshold k') :: kick_frames self rest k' h'
  end.

(** The detector of the specification's trace: bin 0, threshold 230,
    decay 5, no callbacks, switched on. *)
Definition trace_kick : Kick.t :=
  Kick.on (Kick.constructor
             {| Kick.cfg_frequency := Some (Kick.Single 0);
                Kick.cfg_threshold := Some 230;
                Kick.cfg_decay := Some 5;
                Kick.cfg_onKick := None;
                Kick.cfg_offKick := None |}).



(** A metronome run over the playback times of successive frames. *)
Fixpoint beat_frames (self : Origin) (times : list Q) (beatDuration : Q)
  (b : Beat.t) (h : Host) : Beat.t * Host :=
  match times with
  | [] => (b, h)
  | time :: rest =>
      let '(b', h') := final (Beat.calc self time beatDuration b h) in
      beat_frames self rest beatDuration b' h'
  end.

(** A metronome at factor 1 with a callback, switched on. *)
Definition tick : UserCallback := {| cb_name := "tick"; cb_throws := false |}.

Definition demo_beat : Beat.t :=
  Beat.on (Beat.constructor
             {| Beat.cfg_factor := Some 1; Beat.cfg_onBeat := Some tick |}).

(** Ten frames one second apart, and ten frames a sixtieth of a second
    apart after the tenth second. *)
Definition sparse_frames : list Q := [1; 2; 3; 4; 5; 6; 7; 8; 9; 10].

Definition dense_frames : list Q :=
  [601 # 60; 602 # 60; 603 # 60; 604 # 60; 605 # 60;
   606 # 60; 607 # 60; 608 # 60; 609 # 60; 610 # 60].

(** Calls made by the section at index [i] that a trace records. *)
Definition from_section (i : nat) (e : Event) : bool :=
  match e with
  | Invoked (FromSection j) _ _ => Nat.eqb j i
  | _ => false
  end.

Definition fired (i : nat) (l : list Event) : nat :=
  List.length (filter (from_section i) l).

(** A call that threw. *)
Definition throwing_call (e : Event) : bool :=
  match e with
  | Invoked _ cb _ => cb_throws cb
  | _ => false
  end.

Definition calm (l : list Event) : bool :=
  forallb (fun e => negb (throwing_call e)) l.

(** What a stretch of engine code from host [h] to host [h'] may do to the
    trace: it appends calls that returned, and, if it ended by an exception
    ([ret] false), the call that threw comes last. *)
Definition pass_shape (h h' : Host) (ret : bool) : Prop :=
  exists delta,
    log h' = log h ++ delta /\
    if ret then calm delta = true
    else exists pre o cb arg,
        delta = pre ++ [Invoked o cb arg] /\
        cb_throws cb = true /\ calm pre = true.

(** Engine code touches the host's trace only. *)
Definition same_env (h h' : Host) : Prop :=
  currentTime h' = currentTime h /\
  analyser h' = analyser h /\
  nextHandle h' = nextHandle h /\
  pendingFrames h' = pendingFrames h.

(** Engines none of whose registered callbacks throws. *)
Definition section_cb (s : SectionObj) : UserCallback :=
  match callback s with Direct cb => cb | OnceWrapper cb => cb end.

Definition quiet_section (s : SectionObj) : bool :=
  negb (cb_throws (section_cb s)).

Definition quiet_kick (k : Kick.t) : bool :=
  negb (throws_opt (Kick.onKick k)) && negb (throws_opt (Kick.offKick k)).

Definition quiet_beat (b : Beat.t) : bool :=
  negb (throws_opt (Beat.onBeat b)).

Definition quiet (s : Sound.t) : bool :=
  forallb quiet_section (Sound._sections s)
  && forallb quiet_kick (Sound._kicks s)
  && forallb quiet_beat (Sound._beats s).

(** The object [onceAt] pushes, with its [called] flag at [c]. *)
Definition once_section (label : string) (time : Q) (cb : UserCallback)
  (c : bool) : SectionObj :=
  {| label := label; condition := CondOnce time;
     callback := OnceWrapper cb; called := c |}.

(** A newly built engine in a newly opened page. *)
Definition fresh_world (bpm offsetTime now : Q) (data : list Z) : World :=
  (Sound.constructor bpm offsetTime, fresh_host now data).

(** A configuration the specification calls invalid: a range that ends
    before it starts, a negative factor. *)
Definition backwards_range : Kick.Config :=
  {| Kick.cfg_frequency := Some (Kick.Range 5 2);
     Kick.cfg_threshold := None;
     Kick.cfg_decay := None;
     Kick.cfg_onKick := None;
     Kick.cfg_offKick := None |}.

Definition negative_factor : Beat.Config :=
  {| Beat.cfg_factor := Some (-1); Beat.cfg_onBeat := None |}.

(** Two callbacks, one that throws and one that returns. *)
Definition boom : UserCallback := {| cb_name := "boom"; cb_throws := true |}.
Definition fine : UserCallback := {| cb_name := "fine"; cb_throws := false |}.

(** An engine with two [before] sections, the first of which throws. *)
Definition two_sections : Sound.t :=
  Sound.before "second" 100 fine
    (Sound.before "first" 100 boom (Sound.constructor 120 0)).

(** What every action of the environment keeps of a section registered
    with [onceAt] at index [i]: the section sits at its index, and the
    calls recorded for it are [n0] more than its flag says. *)
Definition once_inv (i : nat) (l : string) (t : Q) (cb : UserCallback)
  (n0 : nat) (w : World) (c : bool) : Prop :=
  nth_error (Sound._sections (fst w)) i = Some (once_section l t cb c) /\
  fired i (log (snd w)) = (n0 + Nat.b2n c)%nat.

(** A lifetime that crosses the trigger time twice: an engine with one
    section registered at 1 second is played for 2 seconds, restarted by
    [play(-2)] at 2 seconds before the start, and played past the trigger
    again, with a frame after each move. *)
Definition intro_cb : UserCallback :=
  {| cb_name := "intro"; cb_throws := false |}.

Definition lifetime_start : World :=
  (Sound.onceAt "intro" 1 intro_cb (Sound.constructor 120 0),
   fresh_host 0 []).

Definition lifetime : list Action :=
  [Play 0; Advance 2; Frame; Play (-2); Frame; Advance 4; Frame].

(** ** Further observations *)

(** The frame queue holds at most the one request the engine remembers in
    [req]. *)
Definition frame_queue_ok (w : World) : bool :=
  match pendingFrames (snd w), Sound.req (fst w) with
  | [], _ => true
  | [r], Some r' => Pos.eqb r r'
  | _, _ => false
  end.

(** What a frame pass leaves of a registered object: everything but the
    state the pass is there to move. *)
Definition kept_section (x y : SectionObj) : Prop :=
  label y = label x /\ condition y = condition x /\
  callback y = callback x /\ (called x = true -> called y = true).

Definition kept_kick (x y : Kick.t) : Prop :=
  Kick.frequency y = Kick.frequency x /\
  Kick.threshold y = Kick.threshold x /\
  Kick.decay y = Kick.decay x /\
  Kick.onKick y = Kick.onKick x /\
  Kick.offKick y = Kick.offKick x /\
  Kick.isOn y = Kick.isOn x.

Definition kept_beat (x y : Beat.t) : Prop :=
  Beat.factor y = Beat.factor x /\
  Beat.onBeat y = Beat.onBeat x /\
  Beat.isOn y = Beat.isOn x.

(** What a frame pass leaves of the set-up of a detector and of a
    metronome.  The on/off switch is not part of it: the switches are what
    the page's callbacks operate while a pass runs. *)
Definition kick_setup_kept (x y : Kick.t) : Prop :=
  Kick.frequency y = Kick.frequency x /\
  Kick.threshold y = Kick.threshold x /\
  Kick.decay y = Kick.decay x /\
  Kick.onKick y = Kick.onKick x /\
  Kick.offKick y = Kick.offKick x.

Definition beat_setup_kept (x y : Beat.t) : Prop :=
  Beat.factor y = Beat.factor x /\
  Beat.onBeat y = Beat.onBeat x.

(** An engine that has been playing for three seconds. *)
Definition playing_world : World :=
  run [Play 0; Advance 3] (fresh_world 120 0 0 []).

(** Calls a trace records from one registered object. *)
Definition origin_eqb (a b : Origin) : bool :=
  match a, b with
  | FromSection i, FromSection j => Nat.eqb i j
  | FromKick i, FromKick j => Nat.eqb i j
  | FromBeat i, FromBeat j => Nat.eqb i j
  | _, _ => false
  end.

Definition from_origin (o : Origin) (e : Event) : bool :=
  match e with
  | Invoked o' _ _ => origin_eqb o' o
  | _ => false
  end.

Definition calls_from (o : Origin) (l : list Event) : nat :=
  List.length (filter (from_origin o) l).

(** Whether a callback is there to be called. *)
Definition present (cb : option UserCallback) : nat :=
  match cb with Some _ => 1%nat | None => 0%nat end.

(** The calls a registered object is due in a frame: a section one call
    when its condition holds at the frame's time; a detector that is on
    its [onKick] on a kick and its [offKick] otherwise, if present; a
    metronome that is on its [onBeat], if present, when the playback time
    is not 0 and has reached its next beat. *)
Definition section_due (now : Q) (x : SectionObj) : nat :=
  Nat.b2n (eval_condition now x).

Definition kick_due (spectrum : list Z) (k : Kick.t) : nat :=
  let m := Kick.maxAmplitude spectrum (Kick.frequency k) in
  if Kick.isOn k
  then if js_ge m (Kick.currentThreshold k)
          && js_ge m (VNum (Kick.threshold k))
       then present (Kick.onKick k)
       else present (Kick.offKick k)
  else 0%nat.

Definition beat_due (time beatDuration : Q) (b : Beat.t) : nat :=
  if negb (Qeq_bool time 0)
     && Qle_bool (Beat.currentTime b + beatDuration * Beat.factor b) time
     && Beat.isOn b
  then present (Beat.onBeat b) else 0%nat.

Definition due_at {X : Type} (e : X -> nat) (xs : list X) (i : nat) : nat :=
  match nth_error xs i with Some x => e x | None => 0%nat end.

(** The calls due from the object of origin [o] in a frame pass of engine
    [s] on host [h]. *)
Definition due (s : Sound.t) (h : Host) (o : Origin) : nat :=
  match o with
  | FromSection i =>
      due_at (section_due (Sound.time s h)) (Sound._sections s) i
  | FromKick i =>
      due_at (kick_due (Sound.getSpectrum h)) (Sound._kicks s) i
  | FromBeat i =>
      due_at (beat_due (Math_max 0 (Sound.time s h - Sound._offsetTime s))
                (Sound._beatDuration s))
             (Sound._beats s) i
  end.

(** The kind of object an entry of the trace comes from, and the index of
    the object that made a call. *)
Definition is_section_event (e : Event) : bool :=
  match e with
  | Invoked (FromSection _) _ _ => true
  | ConsoleLog _ _ => true
  | _ => false
  end.

Definition is_kick_event (e : Event) : bool :=
  match e with Invoked (FromKick _) _ _ => true | _ => false end.

Definition is_beat_event (e : Event) : bool :=
  match e with Invoked (FromBeat _) _ _ => true | _ => false end.

Definition origin_index (o : Origin) : nat :=
  match o with FromSection i => i | FromKick i => i | FromBeat i => i end.

Definition call_indices (l : list Event) : list nat :=
  flat_map (fun e => match e with
                     | Invoked o _ _ => [origin_index o]
                     | _ => []
                     end) l.

(** Whether a frame at playback time [time] is one on which the metronome
    [b] moves: the time is not 0 and has reached its next beat. *)
Definition beat_reached (time beatDuration : Q) (b : Beat.t) : bool :=
  negb (Qeq_bool time 0)
  && Qle_bool (Beat.currentTime b + beatDuration * Beat.factor b) time.

(** An engine at 120 beats per minute with a metronome at factor 1,
    switched on.  With no offset: a frame half a second after [play()],
    on which the metronome fires, and a tenth of a second more.  With an
    offset of five seconds: three seconds after [play()]. *)
Definition every_beat : Beat.Config :=
  {| Beat.cfg_factor := Some 1; Beat.cfg_onBeat := Some tick |}.

Definition beating_world : World :=
  run [CreateBeat every_beat; BeatOn 0; Play 0; Advance (1 # 2); Frame;
       Advance (1 # 10)]
      (fresh_world 120 0 0 []).

Definition lead_in_world : World :=
  run [CreateBeat every_beat; BeatOn 0; Play 0; Advance 3]
      (fresh_world 120 5 0 []).

(** A detector fed one spectrum per frame: detector and host after the
    last frame. *)
Fixpoint kick_run (self : Origin) (spectra : list (list Z)) (k : Kick.t)
  (h : Host) : Kick.t * Host :=
  match spectra with
  | [] => (k, h)
  | spectrum :: rest =>
      let '(k', h') := final (Kick.calc self spectrum k h) in
      kick_run self rest k' h'
  end.

(** The configuration that [set] with [c1] and then with [c2] amounts
    to. *)
Definition kick_config_then (c1 c2 : Kick.Config) : Kick.Config :=
  {| Kick.cfg_frequency :=
       Kick.or_else (Kick.cfg_frequency c2) (Kick.cfg_frequency c1);
     Kick.cfg_threshold :=
       Kick.or_else (Kick.cfg_threshold c2) (Kick.cfg_threshold c1);
     Kick.cfg_decay := Kick.or_else (Kick.cfg_decay c2) (Kick.cfg_decay c1);
     Kick.cfg_onKick := Kick.or_else (Kick.cfg_onKick c2) (Kick.cfg_onKick c1);
     Kick.cfg_offKick :=
       Kick.or_else (Kick.cfg_offKick c2) (Kick.cfg_offKick c1) |}.

Definition beat_config_then (c1 c2 : Beat.Config) : Beat.Config :=
  {| Beat.cfg_factor :=
       Kick.or_else (Beat.cfg_factor c2) (Beat.cfg_factor c1);
     Beat.cfg_onBeat :=
       Kick.or_else (Beat.cfg_onBeat c2) (Beat.cfg_onBeat c1) |}.

(** Frames that follow one another by less than [d], from time [t] on. *)
Fixpoint paced (d t : Q) (times : list Q) : Prop :=
  match times with
  | [] => True
  | t' :: rest => t <= t' /\ t' < t + d /\ paced d t' rest
  end.


(** ** class Debug: the texts of [draw] *)

Module Debug.

(** The loop over the sections in [draw]: the labels of the sections
    whose condition holds, each followed by the separator. *)
Fixpoint sectionLabels_loop (now : Q) (sections : list SectionObj)
  (sectionLabels : string) : string :=
  match sections with
  | [] => sectionLabels
  | section :: rest =>
      sectionLabels_loop now rest
        (if eval_condition now section
         then String.append sectionLabels
                (String.append (label section) " - ")
         else sectionLabels)
  end.

(** The text [draw] writes for the sections. *)
Definition sectionLabels (now : Q) (sections : list SectionObj) : string :=
  let sectionLabels := sectionLabels_loop now sections "" in
  if Nat.ltb 0 (String.length sectionLabels)
  then String.substring 0 (String.length sectionLabels - 3) sectionLabels
  else sectionLabels.

End Debug.

(** * Properties *)

(** ** Outcomes and the loop over registered objects *)

Lemma final_omap {S T} (g : S -> T) (o : Outcome S) :
  final (omap g o) = g (final o).
Proof. destruct o; reflexivity. Qed.

Lemma returned_omap {S T} (g : S -> T) (o : Outcome S) :
  returned (omap g o) = returned o.
Proof. destruct o; reflexivity. Qed.

Lemma same_env_refl (h : Host) : same_env h h.
Proof. repeat split. Qed.

Lemma same_env_trans (a b c : Host) :
  same_env a b -> same_env b c -> same_env a c.
Proof.
  unfold same_env. intros [H1 [H2 [H3 H4]]] [K1 [K2 [K3 K4]]].
  repeat split; congruence.
Qed.

Lemma pass_shape_refl (h : Host) : pass_shape h h true.
Proof. exists []. split; [now rewrite app_nil_r | reflexivity]. Qed.

Lemma calm_app (l1 l2 : list Event) :
  calm (l1 ++ l2) = calm l1 && calm l2.
Proof. unfold calm. apply forallb_app. Qed.

Lemma pass_shape_trans (a b c : Host) (r : bool) :
  pass_shape a b true -> pass_shape b c r -> pass_shape a c r.
Proof.
  intros [d1 [H1 C1]] [d2 [H2 C2]]. exists (d1 ++ d2). split.
  - rewrite H2, H1. now rewrite app_assoc.
  - destruct r.
    + rewrite calm_app, C1, C2. reflexivity.
    + destruct C2 as [pre [o [cb [arg [E [T C]]]]]].
      exists (d1 ++ pre), o, cb, arg. split; [|split].
      * rewrite E. now rewrite app_assoc.
      * exact T.
      * rewrite calm_app, C1, C. reflexivity.
Qed.

Section ForEach.

Context {X : Type} (f : nat -> X -> Host -> Outcome (X * Host)).

Lemma for_each_host (PH : Host -> Host -> Prop) :
  (forall h, PH h h) ->
  (forall a b c, PH a b -> PH b c -> PH a c) ->
  (forall i x h, PH h (snd (final (f i x h)))) ->
  forall xs i h, PH h (snd (final (for_each f i xs h))).
Proof.
  intros Hrefl Htrans Hf. induction xs as [|x rest IH]; intros i h; simpl.
  - apply Hrefl.
  - specialize (Hf i x h).
    destruct (f i x h) as [[x' h']|[x' h']]; simpl in *.
    + rewrite final_omap.
      specialize (IH (S i) h').
      destruct (final (for_each f (S i) rest h')) as [rest' h'']. simpl in *.
      eapply Htrans; eassumption.
    + exact Hf.
Qed.

Lemma for_each_objects (PX : X -> X -> Prop) :
  (forall x, PX x x) ->
  (forall i x h, PX x (fst (final (f i x h)))) ->
  forall xs i h, Forall2 PX xs (fst (final (for_each f i xs h))).
Proof.
  intros Hrefl Hf. induction xs as [|x rest IH]; intros i h; simpl.
  - constructor.
  - specialize (Hf i x h).
    destruct (f i x h) as [[x' h']|[x' h']]; simpl in *.
    + rewrite final_omap.
      specialize (IH (S i) h').
      destruct (final (for_each f (S i) rest h')) as [rest' h'']. simpl in *.
      constructor; assumption.
    + constructor; [exact Hf|].
      clear - Hrefl. induction rest; constructor; auto.
Qed.

Lemma for_each_returned (good : X -> bool) :
  (forall i x h, good x = true -> returned (f i x h) = true) ->
  forall xs i h,
    forallb good xs = true -> returned (for_each f i xs h) = true.
Proof.
  intros Hf. induction xs as [|x rest IH]; intros i h Hg; simpl.
  - reflexivity.
  - simpl in Hg. apply andb_true_iff in Hg. destruct Hg as [Hx Hr].
    specialize (Hf i x h Hx).
    destruct (f i x h) as [[x' h']|[x' h']]; simpl in *.
    + rewrite returned_omap. apply IH. exact Hr.
    + discriminate.
Qed.

Lemma for_each_shape :
  (forall i x h, pass_shape h (snd (final (f i x h))) (returned (f i x h))) ->
  forall xs i h,
    pass_shape h (snd (final (for_each f i xs h)))
               (returned (for_each f i xs h)).
Proof.
  intros Hf. induction xs as [|x rest IH]; intros i h; simpl.
  - apply pass_shape_refl.
  - specialize (Hf i x h).
    destruct (f i x h) as [[x' h']|[x' h']]; simpl in *.
    + rewrite final_omap, returned_omap.
      specialize (IH (S i) h').
      destruct (for_each f (S i) rest h') as [[rest' h'']|[rest' h'']];
        simpl in *; eapply pass_shape_trans; eassumption.
    + exact Hf.
Qed.

End ForEach.

Lemma Forall2_forallb_eq {X} (good : X -> bool) (xs ys : list X) :
  Forall2 (fun x y => good y = good x) xs ys ->
  forallb good ys = forallb good xs.
Proof.
  induction 1 as [|x y xs ys Hxy _ IH]; simpl; [reflexivity|].
  now rewrite Hxy, IH.
Qed.

Lemma Forall2_length_eq {X} (P : X -> X -> Prop) (xs ys : list X) :
  Forall2 P xs ys -> List.length ys = List.length xs.
Proof. induction 1; simpl; congruence. Qed.

(** ** Arithmetic helpers *)

Lemma Qlt_bool_iff (x y : Q) : Qlt_bool x y = true <-> x < y.
Proof.
  unfold Qlt_bool. rewrite negb_true_iff.
  split; intro H.
  - apply Qnot_le_lt. intro Hle. apply Qle_bool_iff in Hle. congruence.
  - destruct (Qle_bool y x) eqn:E; [|reflexivity].
    apply Qle_bool_iff in E. exfalso. apply (Qlt_not_le _ _ H E).
Qed.

Lemma Qle_bool_false_iff (x y : Q) : Qle_bool x y = false <-> y < x.
Proof.
  rewrite <- Qlt_bool_iff. unfold Qlt_bool.
  destruct (Qle_bool x y); simpl; split; congruence.
Qed.



Lemma Qfloor_nonneg (x : Q) : 0 <= x -> (0 <= Qfloor x)%Z.
Proof.
  intro H. change 0%Z with (Qfloor 0). apply Qfloor_resp_le. exact H.
Qed.


Lemma Qfloor_pred (x : Q) : Qfloor (x - 1) = (Qfloor x - 1)%Z.
Proof.
  apply Z.le_antisymm.
  - assert (H : (Qfloor (x - 1) < Qfloor x)%Z); [|lia].
    rewrite Zlt_Qlt.
    pose proof (Qfloor_le (x - 1)) as H1. pose proof (Qlt_floor x) as H2.
    rewrite inject_Z_plus in H2. change (inject_Z 1) with 1 in H2. lra.
  - rewrite <- (Qfloor_Z (Qfloor x - 1)).
    apply Qfloor_resp_le.
    unfold Z.sub. rewrite inject_Z_plus. change (inject_Z (- (1))) with (-1).
    pose proof (Qfloor_le x) as H. lra.
Qed.

(** The fuel given to the range loop is enough: more would not change the
    result. *)
Lemma scan_fuel_enough (fft : list Z) (l : Q) :
  forall (n : nat) (i max : Q),
    (Kick.scan_fuel i l <= n)%nat ->
    Kick.scan fft i l max (S n) = Kick.scan fft i l max n.
Proof.
  induction n as [|n IH]; intros i max Hn.
  - unfold Kick.scan_fuel in Hn.
    assert (Hlt : l < i).
    { pose proof (Qlt_floor (l - i)) as H.
      assert (Hz : (Qfloor (l - i) + 1 <= 0)%Z) by lia.
      rewrite Zle_Qle, inject_Z_plus in Hz.
      change (inject_Z 1) with 1 in Hz. change (inject_Z 0) with 0 in Hz.
      rewrite inject_Z_plus in H. change (inject_Z 1) with 1 in H. lra. }
    simpl. apply Qle_bool_false_iff in Hlt. now rewrite Hlt.
  - change (Kick.scan fft i l max (S (S n)))
      with (if Qle_bool i l
            then Kick.scan fft (i + 1) l
                   (if js_gt (Kick.at_number fft i) (VNum max)
                    then match Kick.at_number fft i with
                         | VNum q => q
                         | _ => max
                         end
                    else max) (S n)
            else max).
    change (Kick.scan fft i l max (S n))
      with (if Qle_bool i l
            then Kick.scan fft (i + 1) l
                   (if js_gt (Kick.at_number fft i) (VNum max)
                    then match Kick.at_number fft i with
                         | VNum q => q
                         | _ => max
                         end
                    else max) n
            else max).
    destruct (Qle_bool i l) eqn:E; [|reflexivity].
    apply IH. apply Qle_bool_iff in E.
    unfold Kick.scan_fuel in *.
    assert (Hf : Qfloor (l - (i + 1)) = (Qfloor (l - i) - 1)%Z).
    { rewrite <- Qfloor_pred. apply Qfloor_comp. ring. }
    rewrite Hf.
    assert (H0 : (0 <= Qfloor (l - i))%Z) by (apply Qfloor_nonneg; lra).
    lia.
Qed.

(** ** Kick *)

Lemma invoke_opt_log (o : Origin) (cb : option UserCallback)
  (arg : option value) (h : Host) :
  log (final (invoke_opt o cb arg h)) = log h ++ calls o cb arg.
Proof.
  destruct cb as [f|]; simpl.
  - unfold invoke. destruct (cb_throws f); reflexivity.
  - now rewrite app_nil_r.
Qed.

Lemma invoke_opt_returned (o : Origin) (cb : option UserCallback)
  (arg : option value) (h : Host) :
  returned (invoke_opt o cb arg h) = negb (throws_opt cb).
Proof.
  destruct cb as [f|]; simpl; [|reflexivity].
  unfold invoke. destruct (cb_throws f); reflexivity.
Qed.

(** C1.  An enabled detector on a frame of magnitude [m]: when [m] reaches
    both the adaptive and the base threshold, the adaptive threshold
    becomes [m] (not below its former value), [onKick(m)] is called if
    present and the flag is set; otherwise [offKick(m)] is called if
    present, the adaptive threshold loses [decay] without any clamp and the
    flag is cleared.  With threshold 230 and decay 5 the magnitudes
    300, 300, 250, 200 give the flags true, true, false, false and the
    thresholds 300, 300, 295, 290; and the adaptive threshold can end
    below the base threshold. *)
Theorem kick_calc_adaptive_threshold :
  (forall (self : Origin) (spectrum : list Z) (k : Kick.t) (h : Host),
     Kick.isOn k = true ->
     let m := Kick.maxAmplitude spectrum (Kick.frequency k) in
     let out := Kick.calc self spectrum k h in
     let k' := fst (final out) in
     let h' := snd (final out) in
     (js_ge m (Kick.currentThreshold k)
      && js_ge m (VNum (Kick.threshold k)) = true ->
      Kick.currentThreshold k' = m /\
      js_ge (Kick.currentThreshold k') (Kick.currentThreshold k) = true /\
      log h' = log h ++ calls self (Kick.onKick k) (Some m) /\
      returned out = negb (throws_opt (Kick.onKick k)) /\
      (returned out = true -> Kick.isKick k' = true)) /\
     (js_ge m (Kick.currentThreshold k)
      && js_ge m (VNum (Kick.threshold k)) = false ->
      log h' = log h ++ calls self (Kick.offKick k) (Some m) /\
      returned out = negb (throws_opt (Kick.offKick k)) /\
      (returned out = true ->
       Kick.currentThreshold k'
       = js_sub (Kick.currentThreshold k) (VNum (Kick.decay k)) /\
       (forall c, Kick.currentThreshold k = VNum c ->
                  Kick.currentThreshold k' = VNum (c - Kick.decay k)) /\
       Kick.isKick k' = false))) /\
  (forall (self : Origin) (h : Host),
     kick_frames self [[300%Z]; [300%Z]; [250%Z]; [200%Z]] trace_kick h
     = [(true, VNum 300); (true, VNum 300);
        (false, VNum 295); (false, VNum 290)]) /\
  (forall (self : Origin) (h : Host),
     kick_frames self [[231%Z]; [0%Z]] trace_kick h
     = [(true, VNum 231); (false, VNum 226)] /\
     226 < Kick.threshold trace_kick).
Proof.
  split; [|split].
  - intros self spectrum k h Hon m out k' h'.
    subst out k' h'. unfold Kick.calc. rewrite Hon. simpl negb. cbv iota.
    fold m.
    split; intro Hb; rewrite Hb.
    + apply andb_true_iff in Hb. destruct Hb as [Hc _].
      pose proof (invoke_opt_log self (Kick.onKick k) (Some m) h) as Hl.
      pose proof (invoke_opt_returned self (Kick.onKick k) (Some m) h) as Hr.
      simpl Kick.onKick.
      destruct (invoke_opt self (Kick.onKick k) (Some m) h) as [h1|h1];
        simpl in *; repeat split; auto; discriminate.
    + pose proof (invoke_opt_log self (Kick.offKick k) (Some m) h) as Hl.
      pose proof (invoke_opt_returned self (Kick.offKick k) (Some m) h) as Hr.
      destruct (invoke_opt self (Kick.offKick k) (Some m) h) as [h1|h1];
        simpl in *; repeat split; auto; try discriminate.
      intros c Hc. rewrite Hc. reflexivity.
  - intros self h. reflexivity.
  - intros self h. split; reflexivity.
Qed.

Lemma kick_calc_adaptive_threshold_witness :
  Kick.isOn trace_kick = true /\
  Kick.currentThreshold
    (fst (final (Kick.calc (FromKick 0) [300%Z] trace_kick
                   (fresh_host 0 [])))) = VNum 300 /\
  Kick.currentThreshold
    (fst (final (Kick.calc (FromKick 0) [100%Z] trace_kick
                   (fresh_host 0 [])))) = VNum (230 - 5).
Proof.
  split; [reflexivity|]. split.
  - exact (proj1 (proj1 (proj1 kick_calc_adaptive_threshold
                           (FromKick 0) [300%Z] trace_kick (fresh_host 0 [])
                           eq_refl) eq_refl)).
  - exact (proj1 (proj2 (proj2 (proj2
             (proj2 (proj1 kick_calc_adaptive_threshold
                       (FromKick 0) [100%Z] trace_kick (fresh_host 0 [])
                       eq_refl) eq_refl)) eq_refl)) 230 eq_refl).
Defined.







(** ** Beat *)

Lemma Qeq_bool_false (x y : Q) : ~ x == y -> Qeq_bool x y = false.
Proof.
  intro H. destruct (Qeq_bool x y) eqn:E; [|reflexivity].
  apply Qeq_bool_iff in E. contradiction.
Qed.

(** C2.  A metronome on a frame at playback time [t]: at [t == 0] it is
    skipped, state and trace untouched; otherwise, when [t] has reached
    [nextFireTime + interval], the accumulator moves by exactly one
    interval and the beat fires (the callback of an enabled metronome is
    called), however many intervals have elapsed; below that bound nothing
    changes. *)
Theorem beat_calc_single_step
  (self : Origin) (t beatDuration : Q) (b : Beat.t) (h : Host) :
  let interval := beatDuration * Beat.factor b in
  let out := Beat.calc self t beatDuration b h in
  (t == 0 -> out = Normal (b, h)) /\
  (~ t == 0 -> Beat.currentTime b + interval <= t ->
   log (snd (final out))
   = log h ++ (if Beat.isOn b then calls self (Beat.onBeat b) None else []) /\
   returned out = negb (Beat.isOn b && throws_opt (Beat.onBeat b)) /\
   (returned out = true ->
    fst (final out)
    = Beat.with_currentTime (Beat.currentTime b + interval) b)) /\
  (~ t == 0 -> t < Beat.currentTime b + interval -> out = Normal (b, h)) /\
  (let out10 := Beat.calc self 10 (1 # 2) demo_beat h in
   Beat.currentTime (fst (final out10)) = 1 # 2 /\
   log (snd (final out10)) = log h ++ [Invoked self tick None]).
Proof.
  intros interval out. subst interval out. unfold Beat.calc.
  split; [|split; [|split]].
  - intro H0. apply Qeq_bool_iff in H0. rewrite H0. reflexivity.
  - intros Hn Hle. rewrite (Qeq_bool_false _ _ Hn).
    apply Qle_bool_iff in Hle. rewrite Hle.
    destruct (Beat.isOn b); simpl.
    + pose proof (invoke_opt_log self (Beat.onBeat b) None h) as Hl.
      pose proof (invoke_opt_returned self (Beat.onBeat b) None h) as Hr.
      destruct (invoke_opt self (Beat.onBeat b) None h); simpl in *;
        repeat split; auto; discriminate.
    + rewrite app_nil_r. repeat split; auto.
  - intros Hn Hlt. rewrite (Qeq_bool_false _ _ Hn).
    apply Qle_bool_false_iff in Hlt. rewrite Hlt. reflexivity.
  - split; reflexivity.
Qed.

Lemma beat_calc_single_step_witness :
  Beat.calc (FromBeat 0) 0 (1 # 2) demo_beat (fresh_host 0 [])
  = Normal (demo_beat, fresh_host 0 []) /\
  fst (final (Beat.calc (FromBeat 0) 2 (1 # 2) demo_beat (fresh_host 0 [])))
  = Beat.with_currentTime (0 + (1 # 2) * 1) demo_beat /\
  Beat.calc (FromBeat 0) (1 # 4) (1 # 2) demo_beat (fresh_host 0 [])
  = Normal (demo_beat, fresh_host 0 []).
Proof.
  split; [|split].
  - refine (proj1 (beat_calc_single_step (FromBeat 0) 0 (1 # 2) demo_beat
                     (fresh_host 0 [])) _).
    reflexivity.
  - refine (proj2 (proj2 (proj1 (proj2
              (beat_calc_single_step (FromBeat 0) 2 (1 # 2) demo_beat
                 (fresh_host 0 []))) _ _)) eq_refl).
    + intro H; discriminate H.
    + unfold Qle; simpl; lia.
  - refine (proj1 (proj2 (proj2
              (beat_calc_single_step (FromBeat 0) (1 # 4) (1 # 2) demo_beat
                 (fresh_host 0 [])))) _ _).
    + intro H; discriminate H.
    + unfold Qlt; simpl; lia.
Defined.

Lemma beat_calc_disabled (self : Origin) (t beatDuration : Q) (b : Beat.t)
  (h : Host) :
  Beat.isOn b = false ->
  exists b', Beat.calc self t beatDuration b h = Normal (b', h) /\
             Beat.isOn b' = false /\
             Beat.calc self t beatDuration (Beat.on b) h
             = (if throws_opt (Beat.onBeat b)
                   && negb (Qeq_bool t 0)
                   && Qle_bool (Beat.currentTime b
                                + beatDuration * Beat.factor b) t
                then Throws (Beat.on b,
                             final (invoke_opt self (Beat.onBeat b) None h))
                else Normal (Beat.on b',
                             if negb (Qeq_bool t 0)
                                && Qle_bool (Beat.currentTime b
                                             + beatDuration * Beat.factor b) t
                             then final (invoke_opt self (Beat.onBeat b)
                                           None h)
                             else h)).
Proof.
  intro Hoff. unfold Beat.calc. simpl. rewrite Hoff.
  destruct (Qeq_bool t 0).
  - exists b. rewrite andb_false_r. simpl. auto.
  - destruct (Qle_bool (Beat.currentTime b + beatDuration * Beat.factor b) t).
    + eexists. split; [reflexivity|]. split; [exact Hoff|].
      rewrite !andb_true_r. simpl.
      destruct (Beat.onBeat b) as [f|]; simpl; [|reflexivity].
      unfold invoke. destruct (cb_throws f); reflexivity.
    + exists b. rewrite andb_false_r. simpl. auto.
Qed.

Lemma beat_frames_disabled (self : Origin) (times : list Q) (beatDuration : Q) :
  forall (b : Beat.t) (h h2 : Host),
    Beat.isOn b = false ->
    snd (beat_frames self times beatDuration b h) = h /\
    Beat.isOn (fst (beat_frames self times beatDuration b h)) = false /\
    (throws_opt (Beat.onBeat b) = false ->
     fst (beat_frames self times beatDuration (Beat.on b) h2)
     = Beat.on (fst (beat_frames self times beatDuration b h))).
Proof.
  induction times as [|t rest IH]; intros b h h2 Hoff; simpl.
  - auto.
  - destruct (beat_calc_disabled self t beatDuration b h Hoff)
      as [b' [Hc [Hoff' _]]].
    destruct (beat_calc_disabled self t beatDuration b h2 Hoff)
      as [b2 [Hc2 [_ Hon]]].
    assert (b2 = b') as ->.
    { revert Hc Hc2. unfold Beat.calc. rewrite Hoff.
      destruct (Qeq_bool t 0); [congruence|].
      destruct (Qle_bool _ t); congruence. }
    rewrite Hc. simpl.
    destruct (IH b' h h2 Hoff') as [Hh [Hf He]].
    split; [exact Hh|]. split; [exact Hf|].
    intro Hnt. rewrite Hon, Hnt. simpl.
    assert (Hcb : Beat.onBeat b' = Beat.onBeat b).
    { revert Hc. unfold Beat.calc. rewrite Hoff.
      destruct (Qeq_bool t 0); [congruence|].
      destruct (Qle_bool _ t); intro E; inversion E; reflexivity. }
    destruct (IH b' h
                (if negb (Qeq_bool t 0)
                    && Qle_bool (Beat.currentTime b
                                 + beatDuration * Beat.factor b) t
                 then final (invoke_opt self (Beat.onBeat b) None h2)
                 else h2) Hoff') as [_ [_ He']].
    apply He'. rewrite Hcb. exact Hnt.
Qed.

(** At playback time 0 the metronome is skipped before the comparison is
    made, whatever the accumulator and the interval. *)
Example beat_skipped_at_zero :
  Beat.calc (FromBeat 0) 0 (1 # 2)
    (Beat.set negative_factor (Beat.off demo_beat)) (fresh_host 0 [])
  = Normal (Beat.set negative_factor (Beat.off demo_beat), fresh_host 0 []).
Proof. reflexivity. Qed.

(** ** What one visit of a registered object does to the host *)

Lemma invoke_env (o : Origin) (cb : UserCallback) (arg : option value)
  (h : Host) : same_env h (final (invoke o cb arg h)).
Proof. unfold invoke. destruct (cb_throws cb); repeat split. Qed.

Lemma invoke_shape (o : Origin) (cb : UserCallback) (arg : option value)
  (h : Host) :
  pass_shape h (final (invoke o cb arg h)) (returned (invoke o cb arg h)).
Proof.
  unfold invoke. destruct (cb_throws cb) eqn:E; simpl.
  - exists [Invoked o cb arg]. split; [reflexivity|].
    exists [], o, cb, arg. auto.
  - exists [Invoked o cb arg]. split; [reflexivity|].
    unfold calm. simpl. now rewrite E.
Qed.

Lemma invoke_returned (o : Origin) (cb : UserCallback) (arg : option value)
  (h : Host) : returned (invoke o cb arg h) = negb (cb_throws cb).
Proof. unfold invoke. destruct (cb_throws cb); reflexivity. Qed.

Lemma invoke_opt_env (o : Origin) (cb : option UserCallback)
  (arg : option value) (h : Host) :
  same_env h (final (invoke_opt o cb arg h)).
Proof.
  destruct cb; simpl; [apply invoke_env | apply same_env_refl].
Qed.

Lemma invoke_opt_shape (o : Origin) (cb : option UserCallback)
  (arg : option value) (h : Host) :
  pass_shape h (final (invoke_opt o cb arg h))
             (returned (invoke_opt o cb arg h)).
Proof.
  destruct cb; simpl; [apply invoke_shape | apply pass_shape_refl].
Qed.

Lemma emit_shape (e : Event) (h : Host) :
  throwing_call e = false -> pass_shape h (emit e h) true.
Proof.
  intro H. exists [e]. split; [reflexivity|].
  unfold calm. simpl. now rewrite H.
Qed.

Lemma section_step_env (now : Q) (i : nat) (x : SectionObj) (h : Host) :
  same_env h (snd (final (section_step now i x h))).
Proof.
  unfold section_step, run_callback.
  destruct (eval_condition now x); [|apply same_env_refl].
  destruct (callback x) as [cb|cb].
  - rewrite final_omap. simpl. apply invoke_env.
  - unfold invoke. destruct (cb_throws cb); repeat split.
Qed.

Lemma section_step_shape (now : Q) (i : nat) (x : SectionObj) (h : Host) :
  pass_shape h (snd (final (section_step now i x h)))
             (returned (section_step now i x h)).
Proof.
  unfold section_step, run_callback.
  destruct (eval_condition now x); [|apply pass_shape_refl].
  destruct (callback x) as [cb|cb].
  - rewrite final_omap, returned_omap. simpl. apply invoke_shape.
  - pose proof (invoke_shape (FromSection i) cb None
                  (emit (ConsoleLog "once :" (label x)) h)) as Hs.
    pose proof (emit_shape (ConsoleLog "once :" (label x)) h eq_refl) as He.
    destruct (invoke (FromSection i) cb None
                (emit (ConsoleLog "once :" (label x)) h)); simpl in *;
      eapply pass_shape_trans; eassumption.
Qed.

Lemma section_step_returned (now : Q) (i : nat) (x : SectionObj) (h : Host) :
  quiet_section x = true -> returned (section_step now i x h) = true.
Proof.
  unfold quiet_section, section_cb, section_step, run_callback.
  destruct (eval_condition now x); [|reflexivity].
  destruct (callback x) as [cb|cb]; intro Hq.
  - rewrite returned_omap, invoke_returned. exact Hq.
  - unfold invoke. apply negb_true_iff in Hq. rewrite Hq. reflexivity.
Qed.

Lemma section_step_keeps (now : Q) (i : nat) (x : SectionObj) (h : Host) :
  let x' := fst (final (section_step now i x h)) in
  label x' = label x /\ condition x' = condition x /\
  callback x' = callback x.
Proof.
  unfold section_step, run_callback.
  destruct (eval_condition now x); [|auto].
  destruct (callback x) as [cb|cb] eqn:E.
  - rewrite final_omap. simpl. auto.
  - unfold invoke. destruct (cb_throws cb); simpl; auto.
Qed.

Lemma kick_calc_env (self : Origin) (sp : list Z) (k : Kick.t) (h : Host) :
  same_env h (snd (final (Kick.calc self sp k h))).
Proof.
  unfold Kick.calc.
  destruct (negb (Kick.isOn k)); [apply same_env_refl|].
  match goal with |- context [if ?b then _ else _] => destruct b end.
  - pose proof (invoke_opt_env self (Kick.onKick k)
                  (Some (Kick.maxAmplitude sp (Kick.frequency k))) h) as He.
    simpl Kick.onKick.
    destruct (invoke_opt self (Kick.onKick k) _ h); exact He.
  - pose proof (invoke_opt_env self (Kick.offKick k)
                  (Some (Kick.maxAmplitude sp (Kick.frequency k))) h) as He.
    destruct (invoke_opt self (Kick.offKick k) _ h); exact He.
Qed.

Lemma kick_calc_shape (self : Origin) (sp : list Z) (k : Kick.t) (h : Host) :
  pass_shape h (snd (final (Kick.calc self sp k h)))
             (returned (Kick.calc self sp k h)).
Proof.
  unfold Kick.calc.
  destruct (negb (Kick.isOn k)); [apply pass_shape_refl|].
  match goal with |- context [if ?b then _ else _] => destruct b end.
  - pose proof (invoke_opt_shape self (Kick.onKick k)
                  (Some (Kick.maxAmplitude sp (Kick.frequency k))) h) as He.
    simpl Kick.onKick.
    destruct (invoke_opt self (Kick.onKick k) _ h); exact He.
  - pose proof (invoke_opt_shape self (Kick.offKick k)
                  (Some (Kick.maxAmplitude sp (Kick.frequency k))) h) as He.
    destruct (invoke_opt self (Kick.offKick k) _ h); exact He.
Qed.

Lemma kick_calc_returned (self : Origin) (sp : list Z) (k : Kick.t)
  (h : Host) :
  quiet_kick k = true -> returned (Kick.calc self sp k h) = true.
Proof.
  unfold quiet_kick. intro Hq. apply andb_true_iff in Hq.
  destruct Hq as [Hon Hoff]. unfold Kick.calc.
  destruct (negb (Kick.isOn k)); [reflexivity|].
  match goal with |- context [if ?b then _ else _] => destruct b end.
  - pose proof (invoke_opt_returned self (Kick.onKick k)
                  (Some (Kick.maxAmplitude sp (Kick.frequency k))) h) as He.
    simpl Kick.onKick. rewrite Hon in He.
    destruct (invoke_opt self (Kick.onKick k) _ h); exact He.
  - pose proof (invoke_opt_returned self (Kick.offKick k)
                  (Some (Kick.maxAmplitude sp (Kick.frequency k))) h) as He.
    rewrite Hoff in He.
    destruct (invoke_opt self (Kick.offKick k) _ h); exact He.
Qed.

Lemma kick_calc_keeps (self : Origin) (sp : list Z) (k : Kick.t) (h : Host) :
  quiet_kick (fst (final (Kick.calc self sp k h))) = quiet_kick k.
Proof.
  unfold Kick.calc.
  destruct (negb (Kick.isOn k)); [reflexivity|].
  match goal with |- context [if ?b then _ else _] => destruct b end.
  - simpl Kick.onKick. destruct (invoke_opt self (Kick.onKick k) _ h);
      reflexivity.
  - destruct (invoke_opt self (Kick.offKick k) _ h); reflexivity.
Qed.

Lemma beat_calc_env (self : Origin) (t bd : Q) (b : Beat.t) (h : Host) :
  same_env h (snd (final (Beat.calc self t bd b h))).
Proof.
  unfold Beat.calc.
  destruct (Qeq_bool t 0); [apply same_env_refl|].
  destruct (Qle_bool _ t); [|apply same_env_refl].
  destruct (Beat.isOn b); [|apply same_env_refl].
  pose proof (invoke_opt_env self (Beat.onBeat b) None h) as He.
  destruct (invoke_opt self (Beat.onBeat b) None h); exact He.
Qed.

Lemma beat_calc_shape (self : Origin) (t bd : Q) (b : Beat.t) (h : Host) :
  pass_shape h (snd (final (Beat.calc self t bd b h)))
             (returned (Beat.calc self t bd b h)).
Proof.
  unfold Beat.calc.
  destruct (Qeq_bool t 0); [apply pass_shape_refl|].
  destruct (Qle_bool _ t); [|apply pass_shape_refl].
  destruct (Beat.isOn b); [|apply pass_shape_refl].
  pose proof (invoke_opt_shape self (Beat.onBeat b) None h) as He.
  destruct (invoke_opt self (Beat.onBeat b) None h); exact He.
Qed.

Lemma beat_calc_returned (self : Origin) (t bd : Q) (b : Beat.t) (h : Host) :
  quiet_beat b = true -> returned (Beat.calc self t bd b h) = true.
Proof.
  unfold quiet_beat. intro Hq. unfold Beat.calc.
  destruct (Qeq_bool t 0); [reflexivity|].
  destruct (Qle_bool _ t); [|reflexivity].
  destruct (Beat.isOn b); [|reflexivity].
  pose proof (invoke_opt_returned self (Beat.onBeat b) None h) as He.
  rewrite Hq in He.
  destruct (invoke_opt self (Beat.onBeat b) None h); exact He.
Qed.

Lemma beat_calc_keeps (self : Origin) (t bd : Q) (b : Beat.t) (h : Host) :
  quiet_beat (fst (final (Beat.calc self t bd b h))) = quiet_beat b.
Proof.
  unfold Beat.calc.
  destruct (Qeq_bool t 0); [reflexivity|].
  destruct (Qle_bool _ t); [|reflexivity].
  destruct (Beat.isOn b); [|reflexivity].
  destruct (invoke_opt self (Beat.onBeat b) None h); reflexivity.
Qed.

(** ** Sound: the frame pass *)

Lemma onUpdate_final (s : Sound.t) (h : Host) :
  let h0 := snd (requestAnimationFrame h) in
  let s0 := Sound.with_req (Some (nextHandle h)) s in
  let o1 :=
    for_each (section_step (Sound.time s h)) 0 (Sound._sections s) h0 in
  let o2 :=
    for_each (fun i => Kick.calc (FromKick i)
                         (Sound.getSpectrum (snd (final o1))))
             0 (Sound._kicks s) (snd (final o1)) in
  let o3 :=
    for_each (fun i => Beat.calc (FromBeat i)
                         (Math_max 0 (Sound.time s (snd (final o2))
                                      - Sound._offsetTime s))
                         (Sound._beatDuration s))
             0 (Sound._beats s) (snd (final o2)) in
  final (Sound.onUpdate s h)
  = (if returned o1 then
       if returned o2 then
         (Sound.with_beats (fst (final o3))
            (Sound.with_kicks (fst (final o2))
               (Sound.with_sections (fst (final o1)) s0)),
          snd (final o3))
       else (Sound.with_kicks (fst (final o2))
               (Sound.with_sections (fst (final o1)) s0),
             snd (final o2))
     else (Sound.with_sections (fst (final o1)) s0, snd (final o1))) /\
  returned (Sound.onUpdate s h) = returned o1 && returned o2 && returned o3.
Proof.
  intros h0 s0 o1 o2 o3. subst o3 o2 o1 s0 h0.
  unfold Sound.onUpdate, Sound.time. simpl.
  destruct (for_each (section_step _) 0 (Sound._sections s) _)
    as [[ss h1]|[ss h1]]; simpl; [|auto].
  destruct (for_each _ 0 (Sound._kicks s) h1) as [[ks h2]|[ks h2]];
    simpl; [|auto].
  destruct (for_each _ 0 (Sound._beats s) h2) as [[bs h3]|[bs h3]];
    simpl; auto.
Qed.

(** A frame pass leaves the playback clock alone, asks for the next frame
    before anything else, and touches nothing of the host but the trace and
    the frame queue. *)
Lemma onUpdate_frame (s : Sound.t) (h : Host) :
  let s' := fst (final (Sound.onUpdate s h)) in
  let h' := snd (final (Sound.onUpdate s h)) in
  Sound._startTime s' = Sound._startTime s /\
  Sound._pauseTime s' = Sound._pauseTime s /\
  Sound._isPlaying s' = Sound._isPlaying s /\
  Sound.sourceNode s' = Sound.sourceNode s /\
  Sound.req s' = Some (nextHandle h) /\
  currentTime h' = currentTime h /\
  analyser h' = analyser h /\
  nextHandle h' = Pos.succ (nextHandle h) /\
  pendingFrames h' = pendingFrames h ++ [nextHandle h].
Proof.
  intros s' h'. subst s' h'.
  destruct (onUpdate_final s h) as [Hf _]. rewrite Hf. clear Hf.
  set (h0 := snd (requestAnimationFrame h)).
  set (o1 := for_each _ 0 (Sound._sections s) h0).
  set (o2 := for_each _ 0 (Sound._kicks s) (snd (final o1))).
  set (o3 := for_each _ 0 (Sound._beats s) (snd (final o2))).
  assert (E1 : same_env h0 (snd (final o1))).
  { unfold o1. apply (for_each_host _ same_env);
      [apply same_env_refl | apply same_env_trans | apply section_step_env]. }
  assert (E2 : same_env (snd (final o1)) (snd (final o2))).
  { unfold o2. apply (for_each_host _ same_env);
      [apply same_env_refl | apply same_env_trans |].
    intros; apply kick_calc_env. }
  assert (E3 : same_env (snd (final o2)) (snd (final o3))).
  { unfold o3. apply (for_each_host _ same_env);
      [apply same_env_refl | apply same_env_trans |].
    intros; apply beat_calc_env. }
  pose proof (same_env_trans _ _ _ E1 E2) as E12.
  pose proof (same_env_trans _ _ _ E12 E3) as E13.
  destruct (returned o1); [destruct (returned o2)|]; simpl;
    repeat split; try reflexivity;
    first [apply E13 | apply E12 | apply E1].
Qed.

Lemma onUpdate_quiet (s : Sound.t) (h : Host) :
  quiet (fst (final (Sound.onUpdate s h))) = quiet s /\
  (quiet s = true -> returned (Sound.onUpdate s h) = true).
Proof.
  destruct (onUpdate_final s h) as [Hf Hr]. rewrite Hf, Hr. clear Hf Hr.
  set (h0 := snd (requestAnimationFrame h)).
  set (o1 := for_each _ 0 (Sound._sections s) h0).
  set (o2 := for_each _ 0 (Sound._kicks s) (snd (final o1))).
  set (o3 := for_each _ 0 (Sound._beats s) (snd (final o2))).
  assert (Q1 : forallb quiet_section (fst (final o1))
               = forallb quiet_section (Sound._sections s)).
  { apply Forall2_forallb_eq. unfold o1.
    apply (for_each_objects _ (fun x y => quiet_section y = quiet_section x));
      [reflexivity|].
    intros i x hh. unfold quiet_section, section_cb.
    destruct (section_step_keeps (Sound.time s h) i x hh) as [_ [_ Hc]].
    now rewrite Hc. }
  assert (Q2 : forallb quiet_kick (fst (final o2))
               = forallb quiet_kick (Sound._kicks s)).
  { apply Forall2_forallb_eq. unfold o2.
    apply (for_each_objects _ (fun x y => quiet_kick y = quiet_kick x));
      [reflexivity|].
    intros; apply kick_calc_keeps. }
  assert (Q3 : forallb quiet_beat (fst (final o3))
               = forallb quiet_beat (Sound._beats s)).
  { apply Forall2_forallb_eq. unfold o3.
    apply (for_each_objects _ (fun x y => quiet_beat y = quiet_beat x));
      [reflexivity|].
    intros; apply beat_calc_keeps. }
  split.
  - unfold quiet.
    destruct (returned o1); [destruct (returned o2)|]; simpl;
      rewrite ?Q1, ?Q2, ?Q3; reflexivity.
  - unfold quiet. intro Hq.
    apply andb_true_iff in Hq. destruct Hq as [Hq Hb].
    apply andb_true_iff in Hq. destruct Hq as [Hs Hk].
    assert (R1 : returned o1 = true).
    { unfold o1. apply (for_each_returned _ quiet_section); [|exact Hs].
      apply section_step_returned. }
    assert (R2 : returned o2 = true).
    { unfold o2. apply (for_each_returned _ quiet_kick); [|exact Hk].
      intros; now apply kick_calc_returned. }
    assert (R3 : returned o3 = true).
    { unfold o3. apply (for_each_returned _ quiet_beat); [|exact Hb].
      intros; now apply beat_calc_returned. }
    now rewrite R1, R2, R3.
Qed.

Lemma onUpdate_shape (s : Sound.t) (h : Host) :
  pass_shape h (snd (final (Sound.onUpdate s h)))
             (returned (Sound.onUpdate s h)).
Proof.
  destruct (onUpdate_final s h) as [Hf Hr]. rewrite Hf, Hr. clear Hf Hr.
  set (h0 := snd (requestAnimationFrame h)).
  set (o1 := for_each _ 0 (Sound._sections s) h0).
  set (o2 := for_each _ 0 (Sound._kicks s) (snd (final o1))).
  set (o3 := for_each _ 0 (Sound._beats s) (snd (final o2))).
  assert (S0 : pass_shape h h0 true).
  { exists []. split; [simpl; now rewrite app_nil_r | reflexivity]. }
  assert (S1 : pass_shape h0 (snd (final o1)) (returned o1)).
  { unfold o1. apply for_each_shape. apply section_step_shape. }
  assert (S2 : pass_shape (snd (final o1)) (snd (final o2)) (returned o2)).
  { unfold o2. apply for_each_shape. intros; apply kick_calc_shape. }
  assert (S3 : pass_shape (snd (final o2)) (snd (final o3)) (returned o3)).
  { unfold o3. apply for_each_shape. intros; apply beat_calc_shape. }
  pose proof (pass_shape_trans _ _ _ _ S0 S1) as T1.
  destruct (returned o1); simpl; [|exact T1].
  pose proof (pass_shape_trans _ _ _ _ T1 S2) as T2.
  destruct (returned o2); simpl; [|exact T2].
  exact (pass_shape_trans _ _ _ _ T2 S3).
Qed.

(** ** Sound: the playback clock *)

Arguments Sound.onUpdate : simpl never.
Arguments Sound.play : simpl never.
Arguments Sound.pause : simpl never.

Lemma cancel_req_keeps (s : Sound.t) (h : Host) :
  currentTime (Sound.cancel_req s h) = currentTime h /\
  log (Sound.cancel_req s h) = log h /\
  nextHandle (Sound.cancel_req s h) = nextHandle h.
Proof. unfold Sound.cancel_req. destruct (Sound.req s); auto. Qed.

(** [play] is the frame pass followed, if the pass returned, by the clock
    update. *)
Lemma play_clock (offset : Q) (s : Sound.t) (h : Host) :
  let pass := Sound.onUpdate s (Sound.cancel_req s h) in
  let out := Sound.play offset s h in
  returned out = returned pass /\
  (returned pass = false -> final out = final pass) /\
  (returned pass = true ->
   Sound._isPlaying (fst (final out)) = true /\
   Sound._startTime (fst (final out))
   = currentTime h - (Sound._pauseTime s - Sound._startTime s + offset) /\
   Sound._pauseTime (fst (final out)) = Sound._pauseTime s /\
   Sound._sections (fst (final out)) = Sound._sections (fst (final pass)) /\
   currentTime (snd (final out)) = currentTime h /\
   log (snd (final out))
   = log (snd (final pass))
     ++ [SourceStart (Sound._pauseTime s - Sound._startTime s + offset)] /\
   quiet (fst (final out)) = quiet s).
Proof.
  intros pass out. subst pass out. unfold Sound.play.
  destruct (onUpdate_frame s (Sound.cancel_req s h))
    as [Hst [Hpt [_ [_ [_ [Hct _]]]]]].
  destruct (onUpdate_quiet s (Sound.cancel_req s h)) as [Hq _].
  destruct (cancel_req_keeps s h) as [Hc _].
  destruct (Sound.onUpdate s (Sound.cancel_req s h)) as [[s1 h1]|[s1 h1]];
    simpl in *.
  - split; [reflexivity|]. split; [discriminate|]. intros _.
    rewrite Hst, Hpt, Hct, Hc. repeat split; try reflexivity. exact Hq.
  - split; [reflexivity|]. split; [reflexivity|discriminate].
Qed.

Lemma filter_twice {A} (p : A -> bool) (l : list A) :
  filter p (filter p l) = filter p l.
Proof.
  induction l as [|a l IH]; simpl; [reflexivity|].
  destruct (p a) eqn:E; simpl; [rewrite E|]; now rewrite ?IH.
Qed.

Lemma pause_clock (s : Sound.t) (h : Host) :
  let w := Sound.pause s h in
  Sound._isPlaying (fst w) = false /\
  Sound._pauseTime (fst w) = currentTime h /\
  Sound._startTime (fst w) = Sound._startTime s /\
  Sound.sourceNode (fst w) = false /\
  Sound.req (fst w) = Sound.req s /\
  Sound._sections (fst w) = Sound._sections s /\
  quiet (fst w) = quiet s /\
  currentTime (snd w) = currentTime h.
Proof.
  intro w. subst w. unfold Sound.pause, Sound.cancel_req.
  destruct (Sound.sourceNode s) eqn:Es; destruct (Sound.req s) eqn:Er;
    simpl; repeat split; auto.
Qed.

Lemma run_app (a b : list Action) (w : World) :
  run (a ++ b) w = run b (run a w).
Proof. unfold run. apply fold_left_app. Qed.

(** C4.  Resuming keeps the elapsed time.  From a paused engine none of
    whose callbacks throws, [play(0)], [d1] seconds, [pause()], [d2]
    seconds, [play(0)] leaves the clock running at the former elapsed time
    plus [d1]; the [d2] seconds spent paused do not count.  For a new
    engine and 2 then 5 seconds the elapsed time after the resume is 2,
    not 7 and not 0. *)
Theorem resume_preserves_elapsed :
  (forall (s : Sound.t) (h : Host) (d1 d2 : Q),
     quiet s = true ->
     Sound._isPlaying s = false ->
     let paused := run [Play 0; Advance d1; Pause] (s, h) in
     let waited := run [Advance d2] paused in
     let resumed := run [Play 0] waited in
     elapsed paused == elapsed (s, h) + d1 /\
     elapsed waited == elapsed (s, h) + d1 /\
     Sound._isPlaying (fst resumed) = true /\
     elapsed resumed == elapsed (s, h) + d1) /\
  (forall (bpm offsetTime now : Q) (data : list Z),
     let resumed :=
       run [Play 0; Advance 2; Pause; Advance 5; Play 0]
           (fresh_world bpm offsetTime now data) in
     Sound._isPlaying (fst resumed) = true /\
     elapsed resumed == 2 /\
     ~ elapsed resumed == 7 /\
     ~ elapsed resumed == 0).
Proof.
  assert (General :
    forall (s : Sound.t) (h : Host) (d1 d2 : Q),
      quiet s = true ->
      Sound._isPlaying s = false ->
      let paused := run [Play 0; Advance d1; Pause] (s, h) in
      let waited := run [Advance d2] paused in
      let resumed := run [Play 0] waited in
      elapsed paused == elapsed (s, h) + d1 /\
      elapsed waited == elapsed (s, h) + d1 /\
      Sound._isPlaying (fst resumed) = true /\
      elapsed resumed == elapsed (s, h) + d1).
  { intros s h d1 d2 Hq Hp. simpl.
    destruct (play_clock 0 s h) as [Hr [_ Hplay]].
    destruct (onUpdate_quiet s (Sound.cancel_req s h)) as [_ Hret].
    specialize (Hplay (Hret Hq)).
    destruct Hplay as [_ [Hst [Hpt [_ [Hct [_ Hq1]]]]]].
    destruct (final (Sound.play 0 s h)) as [s1 h1]. simpl in *.
    destruct (pause_clock s1 (advance d1 h1))
      as [Hp3 [Hpt3 [Hst3 [_ [_ [_ [Hq3 Hct3]]]]]]].
    destruct (Sound.pause s1 (advance d1 h1)) as [s3 h3]. simpl in *.
    destruct (play_clock 0 s3 (advance d2 h3)) as [_ [_ Hplay5]].
    destruct (onUpdate_quiet s3 (Sound.cancel_req s3 (advance d2 h3)))
      as [_ Hret5].
    rewrite Hq3, Hq1, Hq in Hret5.
    specialize (Hplay5 (Hret5 eq_refl)).
    destruct Hplay5 as [Hp5 [Hst5 [_ [_ [Hct5 _]]]]].
    destruct (final (Sound.play 0 s3 (advance d2 h3))) as [s5 h5].
    simpl in *.
    unfold elapsed, Sound.time. simpl.
    rewrite Hp3, Hp5, Hp, Hst5, Hct5, Hpt3, Hst3, Hst, Hct.
    repeat split; ring. }
  split; [exact General|].
  intros bpm offsetTime now data.
  destruct (General (Sound.constructor bpm offsetTime) (fresh_host now data)
              2 5 eq_refl eq_refl) as [_ [_ [Hp He]]].
  change (elapsed (Sound.constructor bpm offsetTime, fresh_host now data))
    with (0 - 0) in He.
  fold (fresh_world bpm offsetTime now data) in Hp, He.
  rewrite <- !run_app in Hp, He. simpl app in Hp, He.
  intro resumed. fold resumed in Hp, He.
  set (e := elapsed resumed) in *. clearbody e.
  split; [exact Hp|].
  split; [lra|]. split; intro H; lra.
Qed.

Lemma resume_preserves_elapsed_witness :
  quiet (Sound.constructor 120 0) = true /\
  Sound._isPlaying (Sound.constructor 120 0) = false /\
  elapsed (run [Play 0]
             (run [Advance 5]
                (run [Play 0; Advance 2; Pause]
                   (Sound.constructor 120 0, fresh_host 10 []))))
  == elapsed (Sound.constructor 120 0, fresh_host 10 []) + 2.
Proof.
  split; [reflexivity|]. split; [reflexivity|].
  exact (proj2 (proj2 (proj2
           (proj1 resume_preserves_elapsed (Sound.constructor 120 0)
              (fresh_host 10 []) 2 5 eq_refl eq_refl)))).
Defined.




(** C7, as stated, fails: a second [pause()] five seconds after the first
    moves the elapsed time from 2 to 7. *)
Lemma second_pause_moves_elapsed :
  let w1 := run [Play 0; Advance 2; Pause] (fresh_world 120 0 0 []) in
  let w2 := run [Advance 5; Pause] w1 in
  Sound._isPlaying (fst w1) = false /\
  elapsed w1 == 2 /\
  elapsed w2 == 7 /\
  ~ elapsed w2 == elapsed w1.
Proof.
  vm_compute. repeat split; try reflexivity. intro H. discriminate H.
Qed.

(** C7, amended.  [pause()] cannot fail, and a second call in a row
    cancels no frame request and stops no source again: frame queue and
    trace stay as the first call left them.  After a pause the elapsed time
    is the wall-clock time of that call less [_startTime], and it stays
    there however long the wall clock runs; a further [pause()] captures
    the wall clock anew. *)
Theorem pause_twice_and_paused_clock (s : Sound.t) (h : Host) :
  let w1 := Sound.pause s h in
  Sound._isPlaying (fst w1) = false /\
  elapsed w1 = currentTime h - Sound._startTime s /\
  (forall dt : Q, elapsed (fst w1, advance dt (snd w1)) = elapsed w1) /\
  Sound.pause (fst w1) (snd w1) = w1 /\
  (forall dt : Q,
     let w2 := Sound.pause (fst w1) (advance dt (snd w1)) in
     pendingFrames (snd w2) = pendingFrames (snd w1) /\
     log (snd w2) = log (snd w1) /\
     Sound.sourceNode (fst w2) = false /\
     Sound._isPlaying (fst w2) = false /\
     elapsed w2 = currentTime h + dt - Sound._startTime s).
Proof.
  intro w1. subst w1. unfold Sound.pause, Sound.cancel_req, elapsed, Sound.time.
  destruct (Sound.sourceNode s) eqn:Es; destruct (Sound.req s) as [r|] eqn:Er;
    simpl; rewrite ?Er, ?Es; simpl; rewrite ?filter_twice;
    repeat split; try reflexivity; try assumption;
    unfold cancelAnimationFrame, emit; simpl; rewrite filter_twice;
    reflexivity.
Qed.

(** C8, as stated, fails: a range that ends before it starts and a
    negative factor are both accepted, and the detector is registered. *)
Lemma invalid_configuration_is_registered :
  let s := Sound.constructor 120 0 in
  Sound._kicks (snd (Sound.createKick backwards_range s))
  = [Kick.constructor backwards_range] /\
  Kick.frequency (Kick.constructor backwards_range) = Kick.Range 5 2 /\
  Sound._beats (snd (Sound.createBeat negative_factor s))
  = [Beat.constructor negative_factor] /\
  Beat.factor (Beat.constructor negative_factor) = -1.
Proof. repeat split. Qed.

Lemma scan_empty (fft : list Z) (i l max : Q) (fuel : nat) :
  l < i -> Kick.scan fft i l max fuel = max.
Proof.
  intro H. destruct fuel; simpl; [reflexivity|].
  apply Qle_bool_false_iff in H. now rewrite H.
Qed.

(** C8, amended.  [createKick] and [createBeat] check nothing: whatever
    the configuration, the detector built from it is appended to the
    engine's array and its index returned, the numbers stored as given.  A
    range that ends before it starts then scans no bin and has magnitude
    0. *)
Theorem create_accepts_any_configuration (s : Sound.t) :
  (forall c : Kick.Config,
     fst (Sound.createKick c s) = List.length (Sound._kicks s) /\
     Sound._kicks (snd (Sound.createKick c s))
     = Sound._kicks s ++ [Kick.constructor c] /\
     nth_error (Sound._kicks (snd (Sound.createKick c s)))
               (fst (Sound.createKick c s))
     = Some (Kick.constructor c) /\
     (forall f, Kick.cfg_frequency c = Some f ->
                Kick.frequency (Kick.constructor c) = f)) /\
  (forall c : Beat.Config,
     fst (Sound.createBeat c s) = List.length (Sound._beats s) /\
     Sound._beats (snd (Sound.createBeat c s))
     = Sound._beats s ++ [Beat.constructor c] /\
     nth_error (Sound._beats (snd (Sound.createBeat c s)))
               (fst (Sound.createBeat c s))
     = Some (Beat.constructor c) /\
     (forall f, Beat.cfg_factor c = Some f ->
                Beat.factor (Beat.constructor c) = f)) /\
  (forall (fft : list Z) (start stop : Q),
     stop < start ->
     Kick.maxAmplitude fft (Kick.Range start stop) = VNum 0).
Proof.
  split; [|split].
  - intro c. simpl. repeat split.
    + rewrite nth_error_app2 by (apply Nat.le_refl).
      now rewrite Nat.sub_diag.
    + intros f Hf. now rewrite Hf.
  - intro c. simpl. repeat split.
    + rewrite nth_error_app2 by (apply Nat.le_refl).
      now rewrite Nat.sub_diag.
    + intros f Hf. now rewrite Hf.
  - intros fft start stop H. simpl. now rewrite scan_empty.
Qed.

Lemma create_accepts_any_configuration_witness :
  Kick.frequency (Kick.constructor backwards_range) = Kick.Range 5 2 /\
  Beat.factor (Beat.constructor negative_factor) = -1 /\
  Kick.maxAmplitude [7; 9; 4]%Z (Kick.Range 5 2) = VNum 0.
Proof.
  pose proof (create_accepts_any_configuration (Sound.constructor 120 0))
    as [Hk [Hb Hr]].
  split; [|split].
  - exact (proj2 (proj2 (proj2 (Hk backwards_range))) _ eq_refl).
  - exact (proj2 (proj2 (proj2 (Hb negative_factor))) _ eq_refl).
  - apply Hr. unfold Qlt; simpl; lia.
Defined.

(** C9, as stated, fails: when the callback of the first of two sections
    throws, the frame pass ends by that exception and the second section,
    whose condition holds, is never called.  The next frame had been
    requested before. *)
Lemma throwing_callback_skips_the_rest :
  let out := Sound.onUpdate two_sections (fresh_host 0 []) in
  returned out = false /\
  Forall (fun sec => eval_condition 0 sec = true)
         (Sound._sections two_sections) /\
  log (snd (final out)) = [Invoked (FromSection 0) boom None] /\
  fired 1 (log (snd (final out))) = 0%nat /\
  pendingFrames (snd (final out)) = [1%positive].
Proof.
  vm_compute. repeat split; repeat constructor.
Qed.

(** C9, amended.  A frame pass requests the next frame before it calls
    anything, so the next frame is scheduled whatever the callbacks do.  A
    callback that throws ends the pass: the exception leaves [onUpdate],
    the throwing call is the last entry of the trace, every call before it
    returned, and nothing after it is called.  A pass over callbacks that
    do not throw returns. *)
Theorem throwing_callback_ends_pass (s : Sound.t) (h : Host) :
  let out := Sound.onUpdate s h in
  Sound.req (fst (final out)) = Some (nextHandle h) /\
  In (nextHandle h) (pendingFrames (snd (final out))) /\
  pass_shape h (snd (final out)) (returned out) /\
  (quiet s = true -> returned out = true).
Proof.
  intro out. subst out.
  destruct (onUpdate_frame s h) as [_ [_ [_ [_ [Hreq [_ [_ [_ Hpend]]]]]]]].
  split; [exact Hreq|]. split.
  - rewrite Hpend. apply in_or_app. right. left. reflexivity.
  - split; [apply onUpdate_shape | apply onUpdate_quiet].
Qed.

Lemma throwing_callback_ends_pass_witness :
  quiet (Sound.constructor 120 0) = true /\
  returned (Sound.onUpdate (Sound.constructor 120 0) (fresh_host 0 []))
  = true.
Proof.
  split; [reflexivity|].
  exact (proj2 (proj2 (proj2
           (throwing_callback_ends_pass (Sound.constructor 120 0)
              (fresh_host 0 []))))
           eq_refl).
Defined.

(** ** Sound: the lifetime of a section registered with [onceAt] *)

Lemma fired_app (i : nat) (l1 l2 : list Event) :
  fired i (l1 ++ l2) = (fired i l1 + fired i l2)%nat.
Proof. unfold fired. now rewrite filter_app, length_app. Qed.

Lemma invoke_opt_fired (i : nat) (o : Origin) (cb : option UserCallback)
  (arg : option value) (h : Host) :
  (forall j, o = FromSection j -> j <> i) ->
  fired i (log (final (invoke_opt o cb arg h))) = fired i (log h).
Proof.
  intro Ho. rewrite invoke_opt_log, fired_app.
  destruct cb as [f|]; simpl; [|apply Nat.add_0_r].
  unfold fired. simpl. destruct o as [j| |]; simpl; try apply Nat.add_0_r.
  destruct (Nat.eqb j i) eqn:E; simpl; [|apply Nat.add_0_r].
  apply Nat.eqb_eq in E. exfalso. exact (Ho j eq_refl E).
Qed.

Lemma kick_calc_fired (i j : nat) (sp : list Z) (k : Kick.t) (h : Host) :
  fired i (log (snd (final (Kick.calc (FromKick j) sp k h))))
  = fired i (log h).
Proof.
  assert (Ho : forall n, FromKick j = FromSection n -> n <> i)
    by (intros n E; discriminate E).
  unfold Kick.calc.
  destruct (negb (Kick.isOn k)); [reflexivity|].
  match goal with |- context [if ?b then _ else _] => destruct b end.
  - pose proof (invoke_opt_fired i (FromKick j) (Kick.onKick k)
                  (Some (Kick.maxAmplitude sp (Kick.frequency k))) h Ho)
      as He.
    simpl Kick.onKick.
    destruct (invoke_opt (FromKick j) (Kick.onKick k) _ h); exact He.
  - pose proof (invoke_opt_fired i (FromKick j) (Kick.offKick k)
                  (Some (Kick.maxAmplitude sp (Kick.frequency k))) h Ho)
      as He.
    destruct (invoke_opt (FromKick j) (Kick.offKick k) _ h); exact He.
Qed.

Lemma beat_calc_fired (i j : nat) (t bd : Q) (b : Beat.t) (h : Host) :
  fired i (log (snd (final (Beat.calc (FromBeat j) t bd b h))))
  = fired i (log h).
Proof.
  assert (Ho : forall n, FromBeat j = FromSection n -> n <> i)
    by (intros n E; discriminate E).
  unfold Beat.calc.
  destruct (Qeq_bool t 0); [reflexivity|].
  destruct (Qle_bool _ t); [|reflexivity].
  destruct (Beat.isOn b); [|reflexivity].
  pose proof (invoke_opt_fired i (FromBeat j) (Beat.onBeat b) None h Ho)
    as He.
  destruct (invoke_opt (FromBeat j) (Beat.onBeat b) None h); exact He.
Qed.

Lemma section_step_fired (i j : nat) (now : Q) (x : SectionObj) (h : Host) :
  j <> i ->
  fired i (log (snd (final (section_step now j x h)))) = fired i (log h).
Proof.
  intro Hj.
  assert (E : Nat.eqb j i = false) by now apply Nat.eqb_neq.
  unfold section_step, run_callback.
  destruct (eval_condition now x); [|reflexivity].
  destruct (callback x) as [cb|cb].
  - rewrite final_omap. simpl. unfold invoke.
    destruct (cb_throws cb); simpl; rewrite fired_app; unfold fired; simpl;
      rewrite E; apply Nat.add_0_r.
  - unfold invoke.
    destruct (cb_throws cb); simpl; rewrite !fired_app; unfold fired; simpl;
      rewrite E; simpl; now rewrite !Nat.add_0_r.
Qed.

Section Once.

Variables (i : nat) (l : string) (t : Q) (cb : UserCallback).
Hypothesis cb_returns : cb_throws cb = false.

(** A visit of the section itself: it is called when the time has passed
    [t] and it was not called before, and then it is marked. *)
Lemma section_step_once (now : Q) (c : bool) (h : Host) :
  exists h',
    section_step now i (once_section l t cb c) h
    = Normal (once_section l t cb (c || Qlt_bool t now), h') /\
    (fired i (log h') + Nat.b2n c
     = fired i (log h) + Nat.b2n (c || Qlt_bool t now))%nat.
Proof.
  unfold section_step, eval_condition, run_callback, invoke. simpl.
  rewrite cb_returns.
  destruct (Qlt_bool t now), c; simpl.
  - exists h. split; [reflexivity|lia].
  - eexists. split; [reflexivity|]. simpl.
    rewrite !fired_app. unfold fired at 2 3. simpl.
    rewrite Nat.eqb_refl. simpl. lia.
  - exists h. split; [reflexivity|lia].
  - exists h. split; [reflexivity|lia].
Qed.

(** The first loop of a frame pass, entered at index [j]. *)
Lemma sections_pass_once (now : Q) :
  forall (xs : list SectionObj) (j : nat) (h : Host),
    let out := for_each (section_step now) j xs h in
    (i < j -> fired i (log (snd (final out))) = fired i (log h))%nat /\
    (forall c,
       (j <= i)%nat ->
       nth_error xs (i - j) = Some (once_section l t cb c) ->
       exists c',
         nth_error (fst (final out)) (i - j)
         = Some (once_section l t cb c') /\
         (fired i (log (snd (final out))) + Nat.b2n c
          = fired i (log h) + Nat.b2n c')%nat /\
         (c = true -> c' = true) /\
         (returned out = true -> Qlt_bool t now = true -> c' = true)).
Proof.
  induction xs as [|x rest IH]; intros j h; simpl.
  - split; [reflexivity|].
    intros c _ Hn. destruct (i - j)%nat; discriminate Hn.
  - split.
    + intro Hlt.
      pose proof (section_step_fired i j now x h) as Hs.
      destruct (section_step now j x h) as [[x' h']|[x' h']]; simpl in *.
      * rewrite final_omap.
        destruct (IH (S j) h') as [Hrest _].
        destruct (final (for_each (section_step now) (S j) rest h'))
          as [rest' h'']. simpl in *.
        rewrite Hrest by lia. apply Hs. lia.
      * apply Hs. lia.
    + intros c Hle Hn.
      destruct (Nat.eq_dec j i) as [->|Hne].
      * rewrite Nat.sub_diag in *. simpl in Hn. inversion Hn. subst x.
        destruct (section_step_once now c h) as [h' [Hstep Hf]].
        rewrite Hstep. rewrite final_omap, returned_omap.
        destruct (IH (S i) h') as [Hrest _].
        destruct (for_each (section_step now) (S i) rest h')
          as [[rest' h'']|[rest' h'']]; simpl in *;
          (exists (c || Qlt_bool t now)); (split; [reflexivity|]);
          (split; [rewrite Hrest by lia; exact Hf|]);
          (split; [intros ->; reflexivity|]).
        -- intros _ ->. apply orb_true_r.
        -- discriminate.
      * assert (Hk : (i - j = S (i - S j))%nat) by lia.
        rewrite Hk in *. simpl in Hn.
        pose proof (section_step_fired i j now x h Hne) as Hs.
        destruct (section_step now j x h) as [[x' h']|[x' h']]; simpl in *.
        -- rewrite final_omap, returned_omap.
           destruct (IH (S j) h') as [_ Hrest].
           destruct (Hrest c ltac:(lia) Hn) as [c' [Hn' [Hf' [Hm Hr]]]].
           destruct (for_each (section_step now) (S j) rest h')
             as [[rest' h'']|[rest' h'']]; simpl in *;
             exists c'; repeat split; auto; lia.
        -- exists c. repeat split; auto; try lia; discriminate.
Qed.

(** A whole frame pass. *)
Lemma onUpdate_once (s : Sound.t) (h : Host) (c : bool) :
  nth_error (Sound._sections s) i = Some (once_section l t cb c) ->
  let out := Sound.onUpdate s h in
  exists c',
    nth_error (Sound._sections (fst (final out))) i
    = Some (once_section l t cb c') /\
    (fired i (log (snd (final out))) + Nat.b2n c
     = fired i (log h) + Nat.b2n c')%nat /\
    (c = true -> c' = true) /\
    (returned out = true -> Qlt_bool t (Sound.time s h) = true -> c' = true).
Proof.
  intros Hn out. subst out.
  destruct (onUpdate_final s h) as [Hf Hr]. rewrite Hf, Hr. clear Hf Hr.
  set (h0 := snd (requestAnimationFrame h)).
  set (o1 := for_each _ 0 (Sound._sections s) h0).
  set (o2 := for_each _ 0 (Sound._kicks s) (snd (final o1))).
  set (o3 := for_each _ 0 (Sound._beats s) (snd (final o2))).
  destruct (sections_pass_once (Sound.time s h) (Sound._sections s) 0 h0)
    as [_ Hpass].
  rewrite Nat.sub_0_r in Hpass.
  destruct (Hpass c (Nat.le_0_l i) Hn) as [c' [Hn' [Hf' [Hm Hret]]]].
  fold o1 in Hn', Hf', Hret.
  assert (F2 : fired i (log (snd (final o2)))
               = fired i (log (snd (final o1)))).
  { unfold o2.
    apply (for_each_host _ (fun a b => fired i (log b) = fired i (log a)));
      [reflexivity | intros; congruence | intros; apply kick_calc_fired]. }
  assert (F3 : fired i (log (snd (final o3)))
               = fired i (log (snd (final o2)))).
  { unfold o3.
    apply (for_each_host _ (fun a b => fired i (log b) = fired i (log a)));
      [reflexivity | intros; congruence | intros; apply beat_calc_fired]. }
  change (log h0) with (log h) in Hf'.
  exists c'.
  destruct (returned o1); [destruct (returned o2)|]; simpl;
    repeat split; auto; try lia; try discriminate.
Qed.

Lemma push_keeps (sec x : SectionObj) (s : Sound.t) :
  nth_error (Sound._sections s) i = Some x ->
  nth_error (Sound._sections (Sound.push_section sec s)) i = Some x.
Proof.
  intro H. simpl. rewrite nth_error_app1; [exact H|].
  apply nth_error_Some. congruence.
Qed.

Lemma step_once (n0 : nat) (a : Action) (w : World) (c : bool) :
  once_inv i l t cb n0 w c ->
  exists c', once_inv i l t cb n0 (step a w) c' /\ (c = true -> c' = true).
Proof.
  destruct w as [s h]. unfold once_inv. simpl fst. simpl snd.
  intros [Hn Hf].
  destruct a; simpl;
    try (exists c; split; [split; [exact Hn | exact Hf] | auto]; fail);
    try (exists c; split;
         [split; [apply push_keeps; exact Hn | exact Hf] | auto]; fail).
  - (* play *)
    destruct (play_clock offset s h) as [_ [Hthrow Hplay]].
    destruct (cancel_req_keeps s h) as [_ [Hlog _]].
    destruct (onUpdate_once s (Sound.cancel_req s h) c Hn)
      as [c' [Hn' [Hf' [Hm _]]]].
    rewrite Hlog in Hf'.
    exists c'. split; [|exact Hm].
    destruct (returned (Sound.onUpdate s (Sound.cancel_req s h))).
    + destruct (Hplay eq_refl) as [_ [_ [_ [Hsec [_ [Hl _]]]]]].
      rewrite Hsec, Hl, fired_app. split; [exact Hn'|].
      unfold fired at 2. simpl. lia.
    + rewrite (Hthrow eq_refl). split; [exact Hn'|lia].
  - (* pause *)
    destruct (pause_clock s h) as [_ [_ [_ [_ [_ [Hsec _]]]]]].
    exists c. split; [|auto]. rewrite Hsec. split; [exact Hn|].
    unfold Sound.pause, Sound.cancel_req.
    destruct (Sound.sourceNode s); destruct (Sound.req s); simpl;
      rewrite ?fired_app; unfold fired in *; simpl; lia.
  - (* frame *)
    unfold take_frame. destruct (pendingFrames h) as [|r rest].
    + exists c. simpl. auto.
    + match goal with
      | |- context [Sound.onUpdate s ?hh] =>
          destruct (onUpdate_once s hh c Hn) as [c' [Hn' [Hf' [Hm _]]]]
      end.
      simpl in Hf'. exists c'. split; [|exact Hm].
      split; [exact Hn'|lia].
Qed.

Lemma run_once (n0 : nat) (acts : list Action) :
  forall (w : World) (c : bool),
    once_inv i l t cb n0 w c ->
    exists c',
      once_inv i l t cb n0 (run acts w) c' /\ (c = true -> c' = true).
Proof.
  induction acts as [|a acts IH]; intros w c Hinv; simpl.
  - exists c. auto.
  - destruct (step_once n0 a w c Hinv) as [c1 [H1 M1]].
    destruct (IH (step a w) c1 H1) as [c2 [H2 M2]].
    exists c2. auto.
Qed.

End Once.

(** C3.  A section registered with [onceAt], whose callback returns, over
    any sequence of actions of the page and the browser (time passing,
    [play] with any offset, [pause], frames, further registrations): its
    callback has been called once if its flag is set and not at all
    otherwise, so never twice; once set, the flag stays set, the condition
    is false at every time and the count stays at one whatever follows; and
    a frame pass that returns while the elapsed time exceeds the trigger
    leaves the flag set and the count at one.  A pass returns when no
    registered callback throws. *)
Theorem onceAt_fires_exactly_once
  (label : string) (t : Q) (cb : UserCallback) (s : Sound.t) (h : Host)
  (acts : list Action) :
  cb_throws cb = false ->
  let i := List.length (Sound._sections s) in
  let w := run acts (Sound.onceAt label t cb s, h) in
  exists c : bool,
    nth_error (Sound._sections (fst w)) i
    = Some (once_section label t cb c) /\
    fired i (log (snd w)) = (fired i (log h) + Nat.b2n c)%nat /\
    (c = true ->
     forall now, eval_condition now (once_section label t cb c) = false) /\
    (c = true ->
     forall more : list Action,
       nth_error (Sound._sections (fst (run more w))) i
       = Some (once_section label t cb true) /\
       fired i (log (snd (run more w))) = (fired i (log h) + 1)%nat) /\
    (returned (Sound.onUpdate (fst w) (snd w)) = true ->
     t < elapsed w ->
     nth_error
       (Sound._sections (fst (final (Sound.onUpdate (fst w) (snd w))))) i
     = Some (once_section label t cb true) /\
     fired i (log (snd (final (Sound.onUpdate (fst w) (snd w)))))
     = (fired i (log h) + 1)%nat) /\
    (quiet (fst w) = true ->
     returned (Sound.onUpdate (fst w) (snd w)) = true).
Proof.
  intros Hcb i w.
  assert (Hinit : once_inv i label t cb (fired i (log h))
                    (Sound.onceAt label t cb s, h) false).
  { split; simpl; [|lia].
    rewrite nth_error_app2 by (apply Nat.le_refl).
    unfold i. now rewrite Nat.sub_diag. }
  destruct (run_once i label t cb Hcb _ acts _ false Hinit)
    as [c [Hinv _]].
  fold w in Hinv. exists c.
  destruct Hinv as [Hn Hf].
  split; [exact Hn|]. split; [exact Hf|]. split; [|split; [|split]].
  - intros -> now. unfold eval_condition. simpl. apply andb_false_r.
  - intros -> more.
    destruct (run_once i label t cb Hcb _ more w true (conj Hn Hf))
      as [c2 [[Hn2 Hf2] Hm]].
    rewrite (Hm eq_refl) in Hn2, Hf2. split; assumption.
  - intros Hret Hlt.
    destruct (onUpdate_once i label t cb Hcb (fst w) (snd w) c Hn)
      as [c' [Hn' [Hf' [_ Hfire]]]].
    apply Qlt_bool_iff in Hlt.
    rewrite (Hfire Hret Hlt) in Hn', Hf'.
    split; [exact Hn'|]. simpl in Hf'. lia.
  - apply onUpdate_quiet.
Qed.

Lemma onceAt_fires_exactly_once_witness :
  cb_throws intro_cb = false /\
  (exists c : bool,
     nth_error (Sound._sections (fst (run lifetime lifetime_start))) 0
     = Some (once_section "intro" 1 intro_cb c) /\
     fired 0 (log (snd (run lifetime lifetime_start)))
     = (0 + Nat.b2n c)%nat) /\
  returned (Sound.onUpdate (fst (run [Play 0; Advance 2] lifetime_start))
              (snd (run [Play 0; Advance 2] lifetime_start))) = true /\
  1 < elapsed (run [Play 0; Advance 2] lifetime_start) /\
  fired 0
    (log (snd (final
                 (Sound.onUpdate
                    (fst (run [Play 0; Advance 2] lifetime_start))
                    (snd (run [Play 0; Advance 2] lifetime_start))))))
  = 1%nat.
Proof.
  split; [reflexivity|]. split; [|split; [|split]].
  - destruct (onceAt_fires_exactly_once "intro" 1 intro_cb
                (Sound.constructor 120 0) (fresh_host 0 []) lifetime eq_refl)
      as [c [Hn [Hf _]]].
    exists c. split; [exact Hn | exact Hf].
  - reflexivity.
  - reflexivity.
  - destruct (onceAt_fires_exactly_once "intro" 1 intro_cb
                (Sound.constructor 120 0) (fresh_host 0 [])
                [Play 0; Advance 2] eq_refl)
      as [c [_ [_ [_ [_ [Hfire _]]]]]].
    exact (proj2 (Hfire eq_refl eq_refl)).
Defined.

(** The wrapper of [onceAt] sets the flag after the user's function has
    returned: a function that throws leaves it unset and is called again
    on the next frame. *)
Example once_callback_that_throws :
  fired 0
    (log (snd (run [Play 0; Advance 2; Frame; Frame]
                 (Sound.onceAt "intro" 1 boom (Sound.constructor 120 0),
                  fresh_host 0 []))))
  = 2%nat.
Proof. reflexivity. Qed.

(** * Further properties of the engine *)

(** ** The frame queue *)

Lemma play_queue (offset : Q) (s : Sound.t) (h : Host) :
  let pass := Sound.onUpdate s (Sound.cancel_req s h) in
  Sound.req (fst (final (Sound.play offset s h)))
  = Sound.req (fst (final pass)) /\
  pendingFrames (snd (final (Sound.play offset s h)))
  = pendingFrames (snd (final pass)).
Proof.
  intro pass. subst pass. unfold Sound.play.
  destruct (Sound.onUpdate s (Sound.cancel_req s h)) as [[s1 h1]|[s1 h1]];
    simpl; auto.
Qed.

Lemma cancel_req_empties (s : Sound.t) (h : Host) :
  frame_queue_ok (s, h) = true ->
  pendingFrames (Sound.cancel_req s h) = [].
Proof.
  unfold frame_queue_ok, Sound.cancel_req. simpl.
  destruct (Sound.req s) as [r'|];
    destruct (pendingFrames h) as [|r [|r2 rest]] eqn:E; simpl; intro H;
    try discriminate; rewrite ?E; simpl; rewrite ?H; reflexivity.
Qed.

Lemma onUpdate_arms (s : Sound.t) (h : Host) :
  pendingFrames h = [] ->
  pendingFrames (snd (final (Sound.onUpdate s h))) = [nextHandle h] /\
  Sound.req (fst (final (Sound.onUpdate s h))) = Some (nextHandle h).
Proof.
  intro E.
  destruct (onUpdate_frame s h) as [_ [_ [_ [_ [Hreq [_ [_ [_ Hpend]]]]]]]].
  rewrite Hpend, E. auto.
Qed.

Lemma step_queue (a : Action) (w : World) :
  frame_queue_ok w = true -> frame_queue_ok (step a w) = true.
Proof.
  destruct w as [s h]. intro Hok.
  destruct a; simpl; try exact Hok.
  - (* play *)
    destruct (play_queue offset s h) as [Hr Hp].
    destruct (onUpdate_arms s (Sound.cancel_req s h)
                (cancel_req_empties s h Hok)) as [Hp' Hr'].
    unfold frame_queue_ok. rewrite Hr, Hp, Hp', Hr'. apply Pos.eqb_refl.
  - (* pause *)
    pose proof (cancel_req_empties s h Hok) as E.
    unfold frame_queue_ok, Sound.pause.
    destruct (Sound.sourceNode s); simpl; rewrite E; reflexivity.
  - (* frame *)
    unfold take_frame.
    destruct (pendingFrames h) as [|r [|r2 rest]] eqn:E.
    + exact Hok.
    + match goal with
      | |- context [Sound.onUpdate s ?hh] =>
          destruct (onUpdate_arms s hh eq_refl) as [Hp' Hr']
      end.
      unfold frame_queue_ok. rewrite Hp', Hr'. apply Pos.eqb_refl.
    + unfold frame_queue_ok in Hok. simpl in Hok. rewrite E in Hok.
      discriminate.
Qed.

Lemma run_queue (acts : list Action) :
  forall w, frame_queue_ok w = true -> frame_queue_ok (run acts w) = true.
Proof.
  induction acts as [|a acts IH]; intros w Hok; simpl; [exact Hok|].
  apply IH. now apply step_queue.
Qed.

(** X1.  From an engine whose frame queue holds at most the request
    remembered in [req] (a new engine has none), whatever the page and the
    browser do: the queue never holds more than that one request; [pause()]
    empties it, so a frame due after a pause does nothing; [play()] leaves
    exactly one request, and a frame that runs asks for exactly one more,
    whether it ended by an exception or not. *)
Theorem frame_queue_single (acts : list Action) (w : World) :
  frame_queue_ok w = true ->
  let w' := run acts w in
  frame_queue_ok w' = true /\
  pendingFrames (snd (step Pause w')) = [] /\
  step Frame (step Pause w') = step Pause w' /\
  (forall offset,
     exists r, pendingFrames (snd (step (Play offset) w')) = [r] /\
               Sound.req (fst (step (Play offset) w')) = Some r) /\
  (pendingFrames (snd w') <> [] ->
   exists r, pendingFrames (snd (step Frame w')) = [r] /\
             Sound.req (fst (step Frame w')) = Some r).
Proof.
  intros Hok w'. pose proof (run_queue acts w Hok) as Hok'. fold w' in Hok'.
  destruct w' as [s h].
  assert (Hpause : pendingFrames (snd (step Pause (s, h))) = []).
  { pose proof (cancel_req_empties s h Hok') as E.
    simpl. unfold Sound.pause.
    destruct (Sound.sourceNode s); simpl; exact E. }
  split; [exact Hok'|]. split; [exact Hpause|]. split; [|split].
  - destruct (step Pause (s, h)) as [s1 h1] eqn:E1. simpl in Hpause.
    simpl. unfold take_frame. rewrite Hpause. reflexivity.
  - intro offset. simpl.
    destruct (play_queue offset s h) as [Hr Hp].
    destruct (onUpdate_arms s (Sound.cancel_req s h)
                (cancel_req_empties s h Hok')) as [Hp' Hr'].
    eexists. rewrite Hr, Hp, Hp', Hr'. split; reflexivity.
  - simpl. intro Hne. unfold take_frame.
    unfold frame_queue_ok in Hok'. simpl in Hok'.
    destruct (pendingFrames h) as [|r [|r2 rest]] eqn:E.
    + contradiction.
    + match goal with
      | |- context [Sound.onUpdate s ?hh] =>
          destruct (onUpdate_arms s hh eq_refl) as [Hp' Hr']
      end.
      eexists. rewrite Hp', Hr'. split; reflexivity.
    + discriminate.
Qed.

Lemma frame_queue_single_witness :
  frame_queue_ok (fresh_world 120 0 0 []) = true /\
  pendingFrames
    (snd (step Pause (run [Play 0; Advance 1; Frame]
                        (fresh_world 120 0 0 [])))) = [].
Proof.
  split; [reflexivity|].
  exact (proj1 (proj2 (frame_queue_single [Play 0; Advance 1; Frame]
                         (fresh_world 120 0 0 []) eq_refl))).
Defined.

(** ** What a frame pass leaves alone *)

Lemma section_step_called (now : Q) (i : nat) (x : SectionObj) (h : Host) :
  called x = true ->
  called (fst (final (section_step now i x h))) = true.
Proof.
  intro Hc. unfold section_step, run_callback.
  destruct (eval_condition now x); [|exact Hc].
  destruct (callback x) as [cb|cb].
  - rewrite final_omap. exact Hc.
  - unfold invoke. destruct (cb_throws cb); simpl; auto.
Qed.

Lemma kick_calc_kept (self : Origin) (sp : list Z) (k : Kick.t) (h : Host) :
  kept_kick k (fst (final (Kick.calc self sp k h))).
Proof.
  unfold Kick.calc, kept_kick.
  destruct (negb (Kick.isOn k)); [repeat split|].
  match goal with |- context [if ?b then _ else _] => destruct b end.
  - simpl Kick.onKick. destruct (invoke_opt self (Kick.onKick k) _ h);
      repeat split.
  - destruct (invoke_opt self (Kick.offKick k) _ h); repeat split.
Qed.

Lemma beat_calc_kept (self : Origin) (t bd : Q) (b : Beat.t) (h : Host) :
  kept_beat b (fst (final (Beat.calc self t bd b h))).
Proof.
  unfold Beat.calc, kept_beat.
  destruct (Qeq_bool t 0); [repeat split|].
  destruct (Qle_bool _ t); [|repeat split].
  destruct (Beat.isOn b) eqn:E; simpl.
  - destruct (invoke_opt self (Beat.onBeat b) None h); simpl;
      repeat split; auto.
  - repeat split; auto.
Qed.

(** X2.  The code of a frame pass registers, removes and reorders nothing
    and changes no set-up: after the pass, returned or thrown, the engine
    has the same sections, detectors and metronomes in the same order, each
    with its label, condition, callbacks, frequency, base threshold, decay
    and factor as before, and its tempo and offset are unchanged; a section
    already marked as called stays marked.  (The on/off switches are left
    out: the page's callbacks operate them during a pass.) *)
Theorem pass_keeps_configuration (s : Sound.t) (h : Host) :
  let s' := fst (final (Sound.onUpdate s h)) in
  Forall2 kept_section (Sound._sections s) (Sound._sections s') /\
  Forall2 kick_setup_kept (Sound._kicks s) (Sound._kicks s') /\
  Forall2 beat_setup_kept (Sound._beats s) (Sound._beats s') /\
  Sound._bpm s' = Sound._bpm s /\
  Sound._beatDuration s' = Sound._beatDuration s /\
  Sound._offsetTime s' = Sound._offsetTime s.
Proof.
  intro s'. subst s'.
  destruct (onUpdate_final s h) as [Hf _]. rewrite Hf. clear Hf.
  set (h0 := snd (requestAnimationFrame h)).
  set (o1 := for_each _ 0 (Sound._sections s) h0).
  set (o2 := for_each _ 0 (Sound._kicks s) (snd (final o1))).
  set (o3 := for_each _ 0 (Sound._beats s) (snd (final o2))).
  assert (K1 : Forall2 kept_section (Sound._sections s) (fst (final o1))).
  { unfold o1. apply (for_each_objects _ kept_section).
    - intro x. repeat split. auto.
    - intros i x hh.
      destruct (section_step_keeps (Sound.time s h) i x hh) as [A [B C]].
      repeat split; auto. apply section_step_called. }
  assert (K2 : Forall2 kick_setup_kept (Sound._kicks s) (fst (final o2))).
  { unfold o2. apply (for_each_objects _ kick_setup_kept).
    - intro x. repeat split.
    - intros i x hh.
      destruct (kick_calc_kept (FromKick i)
                  (Sound.getSpectrum (snd (final o1))) x hh)
        as [A [B [C [D [E _]]]]].
      repeat split; assumption. }
  assert (K3 : Forall2 beat_setup_kept (Sound._beats s) (fst (final o3))).
  { unfold o3. apply (for_each_objects _ beat_setup_kept).
    - intro x. repeat split.
    - intros i x hh.
      match goal with
      | |- beat_setup_kept _ (fst (final (Beat.calc ?o ?t ?bd _ _))) =>
          destruct (beat_calc_kept o t bd x hh) as [A [B _]]
      end.
      split; assumption. }
  assert (R2 : Forall2 kick_setup_kept (Sound._kicks s) (Sound._kicks s)).
  { clear. induction (Sound._kicks s); constructor; auto. repeat split. }
  assert (R3 : Forall2 beat_setup_kept (Sound._beats s) (Sound._beats s)).
  { clear. induction (Sound._beats s); constructor; auto. repeat split. }
  destruct (returned o1); [destruct (returned o2)|]; simpl;
    repeat split; auto.
Qed.

(** ** The clock of a playing engine *)

(** X3.  While the engine plays, the elapsed time moves with the wall
    clock; [pause()] freezes it at the value it has; and, when no callback
    throws, [pause()], any wait, [play(0)] brings a playing engine back to
    the elapsed time it had. *)
Theorem playing_clock_round_trip (s : Sound.t) (h : Host) :
  Sound._isPlaying s = true ->
  (forall dt : Q, elapsed (s, advance dt h) == elapsed (s, h) + dt) /\
  elapsed (Sound.pause s h) = elapsed (s, h) /\
  (quiet s = true ->
   forall d : Q,
     Sound._isPlaying (fst (run [Pause; Advance d; Play 0] (s, h))) = true /\
     elapsed (run [Pause; Advance d; Play 0] (s, h)) == elapsed (s, h)).
Proof.
  intro Hp. split; [|split].
  - intro dt. unfold elapsed, Sound.time. simpl. rewrite Hp. ring.
  - destruct (pause_clock s h) as [Hp1 [Hpt [Hst _]]].
    unfold elapsed, Sound.time. cbn [fst snd].
    rewrite Hp1, Hpt, Hst, Hp. reflexivity.
  - intros Hq d. simpl.
    destruct (pause_clock s h)
      as [Hp1 [Hpt [Hst [_ [_ [_ [Hq1 Hct]]]]]]].
    destruct (Sound.pause s h) as [s1 h1]. simpl in *.
    destruct (play_clock 0 s1 (advance d h1)) as [_ [_ Hplay]].
    destruct (onUpdate_quiet s1 (Sound.cancel_req s1 (advance d h1)))
      as [_ Hret].
    rewrite Hq1, Hq in Hret. specialize (Hplay (Hret eq_refl)).
    destruct Hplay as [Hp2 [Hst2 [_ [_ [Hct2 _]]]]].
    destruct (final (Sound.play 0 s1 (advance d h1))) as [s2 h2].
    simpl in *. split; [exact Hp2|].
    unfold elapsed, Sound.time. simpl.
    rewrite Hp2, Hp, Hst2, Hct2, Hpt, Hst, Hct. ring.
Qed.

Lemma playing_clock_round_trip_witness :
  Sound._isPlaying (fst playing_world) = true /\
  elapsed (Sound.pause (fst playing_world) (snd playing_world))
  = elapsed (fst playing_world, snd playing_world) /\
  quiet (fst playing_world) = true /\
  elapsed (run [Pause; Advance 7; Play 0]
             (fst playing_world, snd playing_world))
  == elapsed (fst playing_world, snd playing_world).
Proof.
  split; [reflexivity|]. split; [|split; [reflexivity|]].
  - exact (proj1 (proj2 (playing_clock_round_trip
                           (fst playing_world) (snd playing_world)
                           eq_refl))).
  - exact (proj2 (proj2 (proj2 (playing_clock_round_trip
                                  (fst playing_world) (snd playing_world)
                                  eq_refl)) eq_refl 7)).
Defined.

(** ** Calls made by one registered object in a frame pass *)

Lemma calls_from_app (o : Origin) (l1 l2 : list Event) :
  calls_from o (l1 ++ l2) = (calls_from o l1 + calls_from o l2)%nat.
Proof. unfold calls_from. now rewrite filter_app, length_app. Qed.

Lemma origin_eqb_refl (o : Origin) : origin_eqb o o = true.
Proof. destruct o; simpl; apply Nat.eqb_refl. Qed.

Lemma invoke_calls (o o' : Origin) (cb : UserCallback) (arg : option value)
  (h : Host) :
  calls_from o (log (final (invoke o' cb arg h)))
  = (calls_from o (log h) + Nat.b2n (origin_eqb o' o))%nat.
Proof.
  unfold invoke. destruct (cb_throws cb); simpl;
    rewrite calls_from_app; unfold calls_from at 2; simpl;
    destruct (origin_eqb o' o); reflexivity.
Qed.

Lemma invoke_opt_calls (o o' : Origin) (cb : option UserCallback)
  (arg : option value) (h : Host) :
  calls_from o (log (final (invoke_opt o' cb arg h)))
  = (calls_from o (log h) + Nat.b2n (origin_eqb o' o) * present cb)%nat.
Proof.
  destruct cb as [f|]; simpl.
  - rewrite invoke_calls. lia.
  - lia.
Qed.

(** The calls one visit makes, read off the object and the frame's
    inputs. *)
Lemma section_step_calls (o : Origin) (now : Q) (j : nat) (x : SectionObj)
  (h : Host) :
  calls_from o (log (snd (final (section_step now j x h))))
  = (calls_from o (log h)
     + Nat.b2n (origin_eqb (FromSection j) o)
       * Nat.b2n (eval_condition now x))%nat.
Proof.
  unfold section_step, run_callback.
  destruct (eval_condition now x);
    [change (Nat.b2n true) with 1%nat
    |change (Nat.b2n false) with 0%nat; simpl; lia].
  destruct (callback x) as [cb|cb].
  - rewrite final_omap. simpl snd. rewrite invoke_calls. lia.
  - pose proof (invoke_calls o (FromSection j) cb None
                  (emit (ConsoleLog "once :" (label x)) h)) as Hi.
    destruct (invoke (FromSection j) cb None
                (emit (ConsoleLog "once :" (label x)) h)) as [h'|h'];
      simpl in *; rewrite Hi, calls_from_app; unfold calls_from at 2;
      simpl; lia.
Qed.

Lemma kick_calc_calls (o : Origin) (j : nat) (sp : list Z) (k : Kick.t)
  (h : Host) :
  let m := Kick.maxAmplitude sp (Kick.frequency k) in
  calls_from o (log (snd (final (Kick.calc (FromKick j) sp k h))))
  = (calls_from o (log h)
     + Nat.b2n (origin_eqb (FromKick j) o)
       * (if Kick.isOn k
          then if js_ge m (Kick.currentThreshold k)
                  && js_ge m (VNum (Kick.threshold k))
               then present (Kick.onKick k)
               else present (Kick.offKick k)
          else 0))%nat.
Proof.
  intro m. subst m. unfold Kick.calc.
  destruct (Kick.isOn k); simpl negb; cbv iota; [|simpl; lia].
  match goal with |- context [if ?b then _ else _] => destruct b end.
  - pose proof (invoke_opt_calls o (FromKick j) (Kick.onKick k)
                  (Some (Kick.maxAmplitude sp (Kick.frequency k))) h) as Hi.
    simpl Kick.onKick.
    destruct (invoke_opt (FromKick j) (Kick.onKick k) _ h); exact Hi.
  - pose proof (invoke_opt_calls o (FromKick j) (Kick.offKick k)
                  (Some (Kick.maxAmplitude sp (Kick.frequency k))) h) as Hi.
    destruct (invoke_opt (FromKick j) (Kick.offKick k) _ h); exact Hi.
Qed.

Lemma beat_calc_calls (o : Origin) (j : nat) (t bd : Q) (b : Beat.t)
  (h : Host) :
  calls_from o (log (snd (final (Beat.calc (FromBeat j) t bd b h))))
  = (calls_from o (log h)
     + Nat.b2n (origin_eqb (FromBeat j) o)
       * (if negb (Qeq_bool t 0)
             && Qle_bool (Beat.currentTime b + bd * Beat.factor b) t
             && Beat.isOn b
          then present (Beat.onBeat b) else 0))%nat.
Proof.
  unfold Beat.calc.
  destruct (Qeq_bool t 0); simpl; [lia|].
  destruct (Qle_bool _ t); simpl; [|lia].
  destruct (Beat.isOn b); simpl; [|lia].
  pose proof (invoke_opt_calls o (FromBeat j) (Beat.onBeat b) None h) as Hi.
  destruct (invoke_opt (FromBeat j) (Beat.onBeat b) None h); exact Hi.
Qed.

Section PerObject.

Context {X : Type} (f : nat -> X -> Host -> Outcome (X * Host)).
Variables (mk : nat -> Origin) (e : X -> nat) (i : nat).

Hypothesis emits :
  forall j x h,
    calls_from (mk i) (log (snd (final (f j x h))))
    = (calls_from (mk i) (log h) + Nat.b2n (Nat.eqb j i) * e x)%nat.

(** The object at index [i] makes its calls if the loop reaches it, and
    the loop reaches it if it returns. *)
Lemma for_each_calls :
  forall (xs : list X) (j : nat) (h : Host),
    let out := for_each f j xs h in
    let due := if Nat.leb j i
               then match nth_error xs (i - j) with
                    | Some x => e x
                    | None => 0%nat
                    end
               else 0%nat in
    exists d,
      calls_from (mk i) (log (snd (final out)))
      = (calls_from (mk i) (log h) + d)%nat /\
      (d <= due)%nat /\
      (returned out = true -> d = due).
Proof.
  induction xs as [|x rest IH]; intros j h; cbv zeta.
  - exists 0%nat. cbn [for_each final snd returned].
    split; [lia|]. split; [lia|]. intros _.
    destruct (Nat.leb j i); [|reflexivity].
    destruct (i - j)%nat; reflexivity.
  - cbn [for_each]. pose proof (emits j x h) as He.
    destruct (f j x h) as [[x' h']|[x' h']]; cbn [final snd fst] in He.
    + rewrite final_omap, returned_omap.
      specialize (IH (S j) h'). cbv zeta in IH.
      destruct IH as [d [Hd [Hle Hret]]].
      destruct (final (for_each f (S j) rest h')) as [rest' h''] eqn:Ef.
      cbn [snd fst] in *.
      exists (Nat.b2n (Nat.eqb j i) * e x + d)%nat.
      split; [lia|].
      destruct (Nat.eqb j i) eqn:Eji.
      * apply Nat.eqb_eq in Eji. subst j.
        rewrite Nat.leb_refl, Nat.sub_diag. cbn [nth_error Nat.b2n].
        assert (Hn : Nat.leb (S i) i = false) by (apply Nat.leb_gt; lia).
        rewrite Hn in Hle, Hret. split; [lia|]. intro R.
        specialize (Hret R). lia.
      * apply Nat.eqb_neq in Eji. cbn [Nat.b2n].
        destruct (Nat.leb j i) eqn:Elei.
        -- apply Nat.leb_le in Elei.
           assert (Hn : Nat.leb (S j) i = true) by (apply Nat.leb_le; lia).
           rewrite Hn in Hle, Hret.
           replace (i - j)%nat with (S (i - S j)) by lia.
           cbn [nth_error].
           split; [lia|]. intro R. specialize (Hret R). lia.
        -- apply Nat.leb_gt in Elei.
           assert (Hn : Nat.leb (S j) i = false) by (apply Nat.leb_gt; lia).
           rewrite Hn in Hle, Hret.
           split; [lia|]. intro R. specialize (Hret R). lia.
    + cbn [final snd returned].
      exists (Nat.b2n (Nat.eqb j i) * e x)%nat.
      split; [exact He|]. split; [|discriminate].
      destruct (Nat.eqb j i) eqn:Eji.
      * apply Nat.eqb_eq in Eji. subst j.
        rewrite Nat.leb_refl, Nat.sub_diag. cbn [nth_error Nat.b2n]. lia.
      * cbn [Nat.b2n]. lia.
Qed.

End PerObject.

Lemma time_same_clock (s : Sound.t) (h h' : Host) :
  currentTime h' = currentTime h -> Sound.time s h' = Sound.time s h.
Proof. intros Hc. unfold Sound.time. now rewrite Hc. Qed.

(** The loops of a frame pass see the clock and the analyser as the pass
    found them. *)
Lemma onUpdate_inputs (s : Sound.t) (h : Host) :
  let h0 := snd (requestAnimationFrame h) in
  let o1 :=
    for_each (section_step (Sound.time s h)) 0 (Sound._sections s) h0 in
  let o2 :=
    for_each (fun i => Kick.calc (FromKick i)
                         (Sound.getSpectrum (snd (final o1))))
             0 (Sound._kicks s) (snd (final o1)) in
  (currentTime (snd (final o1)) = currentTime h /\
   analyser (snd (final o1)) = analyser h) /\
  (currentTime (snd (final o2)) = currentTime h /\
   analyser (snd (final o2)) = analyser h).
Proof.
  intros h0 o1 o2.
  assert (E1 : same_env h0 (snd (final o1))).
  { unfold o1. apply (for_each_host _ same_env);
      [apply same_env_refl | apply same_env_trans | apply section_step_env]. }
  assert (E2 : same_env (snd (final o1)) (snd (final o2))).
  { unfold o2. apply (for_each_host _ same_env);
      [apply same_env_refl | apply same_env_trans |].
    intros; apply kick_calc_env. }
  destruct E1 as [A1 [B1 _]]. destruct E2 as [A2 [B2 _]].
  split; split.
  - exact A1.
  - exact B1.
  - rewrite A2. exact A1.
  - rewrite B2. exact B1.
Qed.

Lemma due_at_shift {X : Type} (e : X -> nat) (xs : list X) (i : nat) :
  (if Nat.leb 0 i
   then match nth_error xs (i - 0) with
        | Some x => e x
        | None => 0%nat
        end
   else 0%nat) = due_at e xs i.
Proof. unfold due_at. now rewrite Nat.sub_0_r. Qed.

Lemma onUpdate_calls (s : Sound.t) (h : Host) (o : Origin) :
  let out := Sound.onUpdate s h in
  (due s h o <= 1)%nat /\
  (calls_from o (log (snd (final out)))
   <= calls_from o (log h) + due s h o)%nat /\
  (calls_from o (log h) <= calls_from o (log (snd (final out))))%nat /\
  (returned out = true ->
   calls_from o (log (snd (final out)))
   = (calls_from o (log h) + due s h o)%nat).
Proof.
  intro out. subst out.
  assert (Hone : (due s h o <= 1)%nat).
  { unfold due, due_at, section_due, kick_due, beat_due, present.
    destruct o as [i|i|i].
    - destruct (nth_error (Sound._sections s) i) as [x|]; [|lia].
      destruct (eval_condition (Sound.time s h) x); simpl; lia.
    - destruct (nth_error (Sound._kicks s) i) as [k|]; [|lia].
      destruct (Kick.isOn k); [|lia].
      match goal with |- context [if ?b then _ else _] => destruct b end;
        [destruct (Kick.onKick k) | destruct (Kick.offKick k)]; lia.
    - destruct (nth_error (Sound._beats s) i) as [b|]; [|lia].
      match goal with |- context [if ?b then _ else _] => destruct b end;
        [destruct (Beat.onBeat b)|]; lia. }
  split; [exact Hone|].
  destruct (onUpdate_final s h) as [Hf Hr]. rewrite Hf, Hr. clear Hf Hr.
  set (h0 := snd (requestAnimationFrame h)).
  set (o1 := for_each _ 0 (Sound._sections s) h0).
  set (o2 := for_each _ 0 (Sound._kicks s) (snd (final o1))).
  set (o3 := for_each _ 0 (Sound._beats s) (snd (final o2))).
  destruct (onUpdate_inputs s h) as [[_ Ha] [Hc2 _]].
  fold h0 in Ha, Hc2. fold o1 in Ha, Hc2. fold o2 in Hc2.
  assert (C1 : exists d,
             calls_from o (log (snd (final o1)))
             = (calls_from o (log h) + d)%nat /\
             (d <= match o with FromSection _ => due s h o | _ => 0%nat end)%nat
             /\ (returned o1 = true ->
                 d = match o with FromSection _ => due s h o | _ => 0%nat end)).
  { change (log h) with (log h0).
    destruct o as [i|i|i].
    - destruct (for_each_calls (section_step (Sound.time s h)) FromSection
                  (section_due (Sound.time s h)) i
                  (fun j x hh =>
                     section_step_calls (FromSection i) (Sound.time s h)
                       j x hh)
                  (Sound._sections s) 0 h0) as [d Hd].
      rewrite due_at_shift in Hd. exists d. exact Hd.
    - exists 0%nat. split; [|split; [lia|reflexivity]].
      rewrite Nat.add_0_r. unfold o1.
      apply (for_each_host _ (fun a b => calls_from (FromKick i) (log b)
                                        = calls_from (FromKick i) (log a)));
        [reflexivity | intros; congruence |].
      intros j x hh. rewrite section_step_calls. simpl. lia.
    - exists 0%nat. split; [|split; [lia|reflexivity]].
      rewrite Nat.add_0_r. unfold o1.
      apply (for_each_host _ (fun a b => calls_from (FromBeat i) (log b)
                                        = calls_from (FromBeat i) (log a)));
        [reflexivity | intros; congruence |].
      intros j x hh. rewrite section_step_calls. simpl. lia. }
  assert (C2 : exists d,
             calls_from o (log (snd (final o2)))
             = (calls_from o (log (snd (final o1))) + d)%nat /\
             (d <= match o with FromKick _ => due s h o | _ => 0%nat end)%nat
             /\ (returned o2 = true ->
                 d = match o with FromKick _ => due s h o | _ => 0%nat end)).
  { destruct o as [i|i|i].
    - exists 0%nat. split; [|split; [lia|reflexivity]].
      rewrite Nat.add_0_r. unfold o2.
      apply (for_each_host _ (fun a b => calls_from (FromSection i) (log b)
                                    = calls_from (FromSection i) (log a)));
        [reflexivity | intros; congruence |].
      intros j x hh. rewrite kick_calc_calls. simpl. lia.
    - unfold due. unfold Sound.getSpectrum in *. rewrite <- Ha.
      destruct (for_each_calls
                  (fun j => Kick.calc (FromKick j)
                              (analyser (snd (final o1))))
                  FromKick (kick_due (analyser (snd (final o1)))) i
                  (fun j x hh =>
                     kick_calc_calls (FromKick i) j
                       (analyser (snd (final o1))) x hh)
                  (Sound._kicks s) 0 (snd (final o1))) as [d Hd].
      rewrite due_at_shift in Hd. exists d. exact Hd.
    - exists 0%nat. split; [|split; [lia|reflexivity]].
      rewrite Nat.add_0_r. unfold o2.
      apply (for_each_host _ (fun a b => calls_from (FromBeat i) (log b)
                                        = calls_from (FromBeat i) (log a)));
        [reflexivity | intros; congruence |].
      intros j x hh. rewrite kick_calc_calls. simpl. lia. }
  assert (C3 : exists d,
             calls_from o (log (snd (final o3)))
             = (calls_from o (log (snd (final o2))) + d)%nat /\
             (d <= match o with FromBeat _ => due s h o | _ => 0%nat end)%nat
             /\ (returned o3 = true ->
                 d = match o with FromBeat _ => due s h o | _ => 0%nat end)).
  { destruct o as [i|i|i].
    - exists 0%nat. split; [|split; [lia|reflexivity]].
      rewrite Nat.add_0_r. unfold o3.
      apply (for_each_host _ (fun a b => calls_from (FromSection i) (log b)
                                    = calls_from (FromSection i) (log a)));
        [reflexivity | intros; congruence |].
      intros j x hh. rewrite beat_calc_calls. simpl. lia.
    - exists 0%nat. split; [|split; [lia|reflexivity]].
      rewrite Nat.add_0_r. unfold o3.
      apply (for_each_host _ (fun a b => calls_from (FromKick i) (log b)
                                        = calls_from (FromKick i) (log a)));
        [reflexivity | intros; congruence |].
      intros j x hh. rewrite beat_calc_calls. simpl. lia.
    - unfold due. rewrite <- (time_same_clock s h _ Hc2).
      destruct (for_each_calls
                  (fun j => Beat.calc (FromBeat j)
                              (Math_max 0 (Sound.time s (snd (final o2))
                                           - Sound._offsetTime s))
                              (Sound._beatDuration s))
                  FromBeat
                  (beat_due (Math_max 0 (Sound.time s (snd (final o2))
                                         - Sound._offsetTime s))
                     (Sound._beatDuration s)) i
                  (fun j x hh =>
                     beat_calc_calls (FromBeat i) j _ _ x hh)
                  (Sound._beats s) 0 (snd (final o2))) as [d Hd].
      rewrite due_at_shift in Hd. exists d. exact Hd. }
  destruct C1 as [d1 [H1 [L1 R1]]].
  destruct C2 as [d2 [H2 [L2 R2]]].
  destruct C3 as [d3 [H3 [L3 R3]]].
  destruct (returned o1); [destruct (returned o2); [destruct (returned o3)|]|];
    cbn [fst snd andb]; destruct o as [i|i|i];
    repeat split; try discriminate; try lia;
    intros _;
    try (specialize (R1 eq_refl)); try (specialize (R2 eq_refl));
    try (specialize (R3 eq_refl)); lia.
Qed.

(** X4.  In a frame pass no registered object is called more than once,
    detectors included.  A section is never called when its condition does
    not hold at the time of the pass, and in a pass that returns it is
    called exactly when it holds.  A metronome is not called on a frame
    whose playback time (elapsed time less the offset, not below 0) is 0 or
    short of its next beat, whether it is on or off. *)
Theorem pass_calls_each_object_as_due (s : Sound.t) (h : Host) :
  let out := Sound.onUpdate s h in
  let before o := calls_from o (log h) in
  let after o := calls_from o (log (snd (final out))) in
  (forall o, (before o <= after o)%nat /\ (after o <= before o + 1)%nat) /\
  (forall i,
     (after (FromSection i)
      <= before (FromSection i) + due s h (FromSection i))%nat /\
     (returned out = true ->
      after (FromSection i)
      = (before (FromSection i) + due s h (FromSection i))%nat)) /\
  (forall i b,
     nth_error (Sound._beats s) i = Some b ->
     beat_reached (Math_max 0 (elapsed (s, h) - Sound._offsetTime s))
       (Sound._beatDuration s) b = false ->
     after (FromBeat i) = before (FromBeat i)).
Proof.
  intros out before after. subst out before after. cbv beta.
  split; [|split].
  - intro o. destruct (onUpdate_calls s h o) as [H1 [Hup [Hlow _]]].
    split; [exact Hlow|lia].
  - intro i.
    destruct (onUpdate_calls s h (FromSection i)) as [_ [Hup [_ Heq]]].
    split; assumption.
  - intros i b Hn Hr.
    destruct (onUpdate_calls s h (FromBeat i)) as [_ [Hup [Hlow _]]].
    unfold due, due_at, beat_due in Hup. rewrite Hn in Hup.
    unfold beat_reached, elapsed in Hr. cbn [fst snd] in Hr.
    rewrite Hr in Hup. cbn [andb] in Hup. lia.
Qed.

Lemma pass_calls_each_object_as_due_witness :
  returned (Sound.onUpdate (fst (run [Play 0; Advance 2] lifetime_start))
              (snd (run [Play 0; Advance 2] lifetime_start))) = true /\
  calls_from (FromSection 0)
    (log (snd (final
                 (Sound.onUpdate
                    (fst (run [Play 0; Advance 2] lifetime_start))
                    (snd (run [Play 0; Advance 2] lifetime_start))))))
  = (calls_from (FromSection 0)
       (log (snd (run [Play 0; Advance 2] lifetime_start)))
     + due (fst (run [Play 0; Advance 2] lifetime_start))
         (snd (run [Play 0; Advance 2] lifetime_start)) (FromSection 0))%nat /\
  nth_error (Sound._beats (fst beating_world)) 0
  = Some (Beat.with_currentTime (0 + 60 / 120 * 1) demo_beat) /\
  calls_from (FromBeat 0) (log (snd beating_world)) = 1%nat /\
  calls_from (FromBeat 0)
    (log (snd (final (Sound.onUpdate (fst beating_world)
                        (snd beating_world)))))
  = calls_from (FromBeat 0) (log (snd beating_world)).
Proof.
  split; [reflexivity|]. split; [|split; [reflexivity|split; [reflexivity|]]].
  - exact (proj2 (proj1 (proj2
             (pass_calls_each_object_as_due
                (fst (run [Play 0; Advance 2] lifetime_start))
                (snd (run [Play 0; Advance 2] lifetime_start)))) 0%nat)
             eq_refl).
  - exact (proj2 (proj2
             (pass_calls_each_object_as_due
                (fst beating_world) (snd beating_world)))
             0%nat (Beat.with_currentTime (0 + 60 / 120 * 1) demo_beat)
             eq_refl eq_refl).
Defined.

(** ** Sections registered with [before], [after] and [between] *)

Lemma quiet_push (sec : SectionObj) (s : Sound.t) :
  quiet s = true -> quiet_section sec = true ->
  quiet (Sound.push_section sec s) = true.
Proof.
  unfold quiet. simpl. intros Hq Hs. rewrite forallb_app. simpl.
  apply andb_true_iff in Hq. destruct Hq as [Hq Hb].
  apply andb_true_iff in Hq. destruct Hq as [Hq Hk].
  now rewrite Hq, Hk, Hb, Hs.
Qed.

Lemma pushed_section_calls (sec : SectionObj) (s : Sound.t) (h : Host) :
  quiet s = true -> quiet_section sec = true ->
  let i := List.length (Sound._sections s) in
  let out := Sound.onUpdate (Sound.push_section sec s) h in
  calls_from (FromSection i) (log (snd (final out)))
  = (calls_from (FromSection i) (log h)
     + Nat.b2n (eval_condition (Sound.time s h) sec))%nat.
Proof.
  intros Hq Hs i out. subst out.
  destruct (onUpdate_calls (Sound.push_section sec s) h (FromSection i))
    as [_ [_ [_ Hret]]].
  destruct (onUpdate_quiet (Sound.push_section sec s) h) as [_ Hr].
  rewrite (Hret (Hr (quiet_push sec s Hq Hs))).
  unfold due, due_at, section_due. simpl Sound._sections.
  rewrite nth_error_app2 by (apply Nat.le_refl).
  unfold i. rewrite Nat.sub_diag. reflexivity.
Qed.

(** X5.  The windows of [before], [after] and [between] are open.  In an
    engine whose callbacks return, a frame pass calls the callback of a
    section registered with [before(t)] exactly when the elapsed time is
    below [t], with [after(t)] exactly when it is above [t], and with
    [between(t0, t1)] exactly when it is strictly between the two; at the
    bounds themselves it is not called. *)
Theorem window_sections_fire_inside
  (l : string) (cb : UserCallback) (s : Sound.t) (h : Host) :
  quiet s = true ->
  cb_throws cb = false ->
  let i := List.length (Sound._sections s) in
  let e := elapsed (s, h) in
  let calls s1 :=
    (calls_from (FromSection i) (log (snd (final (Sound.onUpdate s1 h))))
     - calls_from (FromSection i) (log h))%nat in
  (forall t, (e < t -> calls (Sound.before l t cb s) = 1%nat) /\
             (t <= e -> calls (Sound.before l t cb s) = 0%nat)) /\
  (forall t, (t < e -> calls (Sound.after l t cb s) = 1%nat) /\
             (e <= t -> calls (Sound.after l t cb s) = 0%nat)) /\
  (forall t0 t1,
     (t0 < e /\ e < t1 -> calls (Sound.between l t0 t1 cb s) = 1%nat) /\
     (e <= t0 \/ t1 <= e -> calls (Sound.between l t0 t1 cb s) = 0%nat)).
Proof.
  intros Hq Hcb i e calls. subst calls i. cbv beta.
  assert (Hs : forall c, quiet_section
                 {| label := l; condition := c; callback := Direct cb;
                    called := false |} = true).
  { intro c. unfold quiet_section, section_cb. simpl. now rewrite Hcb. }
  unfold Sound.before, Sound.after, Sound.between.
  split; [|split].
  - intro t. rewrite (pushed_section_calls _ s h Hq (Hs _)).
    unfold eval_condition. simpl condition.
    change (Sound.time s h) with e.
    split; intro H.
    + apply Qlt_bool_iff in H. rewrite H. simpl. lia.
    + apply Qle_bool_iff in H. unfold Qlt_bool. rewrite H. simpl. lia.
  - intro t. rewrite (pushed_section_calls _ s h Hq (Hs _)).
    unfold eval_condition. simpl condition.
    change (Sound.time s h) with e.
    split; intro H.
    + apply Qlt_bool_iff in H. rewrite H. simpl. lia.
    + apply Qle_bool_iff in H. unfold Qlt_bool. rewrite H. simpl. lia.
  - intros t0 t1. rewrite (pushed_section_calls _ s h Hq (Hs _)).
    unfold eval_condition. simpl condition.
    change (Sound.time s h) with e.
    split; intro H.
    + destruct H as [H0 H1].
      apply Qlt_bool_iff in H0. apply Qlt_bool_iff in H1.
      rewrite H0, H1. simpl. lia.
    + destruct H as [H|H]; apply Qle_bool_iff in H; unfold Qlt_bool;
        rewrite H; simpl; rewrite ?andb_false_r; simpl; lia.
Qed.

Lemma window_sections_fire_inside_witness :
  quiet (fst playing_world) = true /\
  cb_throws fine = false /\
  (calls_from (FromSection 0)
     (log (snd (final (Sound.onUpdate
                         (Sound.between "verse" 3 20 fine (fst playing_world))
                         (snd playing_world)))))
   - calls_from (FromSection 0) (log (snd playing_world)))%nat = 0%nat /\
  (calls_from (FromSection 0)
     (log (snd (final (Sound.onUpdate
                         (Sound.between "verse" 1 20 fine (fst playing_world))
                         (snd playing_world)))))
   - calls_from (FromSection 0) (log (snd playing_world)))%nat = 1%nat.
Proof.
  split; [reflexivity|]. split; [reflexivity|].
  pose proof (window_sections_fire_inside "verse" fine (fst playing_world)
                (snd playing_world) eq_refl eq_refl) as [_ [_ Hb]].
  split.
  - apply (proj2 (Hb 3 20)). left. unfold Qle; simpl; lia.
  - apply (proj1 (Hb 1 20)). split; unfold Qlt; simpl; lia.
Defined.

(** ** The lead-in of the metronomes *)

Lemma for_each_id {X} (f : nat -> X -> Host -> Outcome (X * Host)) :
  (forall i x h, f i x h = Normal (x, h)) ->
  forall xs i h, for_each f i xs h = Normal (xs, h).
Proof.
  intros Hf. induction xs as [|x rest IH]; intros i h; simpl.
  - reflexivity.
  - rewrite Hf, IH. reflexivity.
Qed.

Lemma Math_max_nonpos (x : Q) : x <= 0 -> Qeq_bool (Math_max 0 x) 0 = true.
Proof.
  intro H. unfold Math_max. destruct (Qle_bool 0 x) eqn:E.
  - apply Qle_bool_iff in E. apply Qeq_bool_iff. lra.
  - reflexivity.
Qed.

(** X7.  While the elapsed time has not passed the offset given to the
    constructor, the playback time handed to the metronomes is 0 and a
    frame pass moves none of them: every accumulator stays where it is and
    no [onBeat] is called, however many intervals fit into the elapsed
    time. *)
Theorem beats_wait_for_offset (s : Sound.t) (h : Host) :
  elapsed (s, h) <= Sound._offsetTime s ->
  map Beat.currentTime (Sound._beats (fst (final (Sound.onUpdate s h))))
  = map Beat.currentTime (Sound._beats s) /\
  (forall i,
     calls_from (FromBeat i) (log (snd (final (Sound.onUpdate s h))))
     = calls_from (FromBeat i) (log h)).
Proof.
  intro Hle. unfold elapsed in Hle. simpl in Hle.
  assert (Hzero : Qeq_bool (Math_max 0 (Sound.time s h - Sound._offsetTime s))
                    0 = true) by (apply Math_max_nonpos; lra).
  split.
  - assert (Heq : Sound._beats (fst (final (Sound.onUpdate s h)))
                  = Sound._beats s); [|now rewrite Heq].
    destruct (onUpdate_final s h) as [Hf _]. rewrite Hf. clear Hf.
    destruct (onUpdate_inputs s h) as [_ [Hc2 _]].
    set (h0 := snd (requestAnimationFrame h)) in *.
    set (o1 := for_each _ 0 (Sound._sections s) h0) in *.
    set (o2 := for_each _ 0 (Sound._kicks s) (snd (final o1))) in *.
    rewrite (time_same_clock s h _ Hc2).
    assert (Hid : for_each
                    (fun i => Beat.calc (FromBeat i)
                                (Math_max 0 (Sound.time s h
                                             - Sound._offsetTime s))
                                (Sound._beatDuration s))
                    0 (Sound._beats s) (snd (final o2))
                  = Normal (Sound._beats s, snd (final o2))).
    { apply for_each_id. intros i x hh. unfold Beat.calc.
      now rewrite Hzero. }
    rewrite Hid.
    destruct (returned o1); [destruct (returned o2)|]; reflexivity.
  - intro i.
    destruct (onUpdate_calls s h (FromBeat i)) as [_ [Hup [Hlow _]]].
    unfold due, due_at, beat_due in Hup. rewrite Hzero in Hup.
    simpl in Hup.
    destruct (nth_error (Sound._beats s) i); lia.
Qed.

Lemma beats_wait_for_offset_witness :
  Sound._isPlaying (fst lead_in_world) = true /\
  Sound._beats (fst lead_in_world) = [demo_beat] /\
  elapsed (fst lead_in_world, snd lead_in_world) == 3 /\
  Sound._beatDuration (fst lead_in_world) == 1 # 2 /\
  elapsed (fst lead_in_world, snd lead_in_world)
  <= Sound._offsetTime (fst lead_in_world) /\
  map Beat.currentTime
    (Sound._beats (fst (final (Sound.onUpdate (fst lead_in_world)
                                 (snd lead_in_world)))))
  = map Beat.currentTime (Sound._beats (fst lead_in_world)) /\
  calls_from (FromBeat 0)
    (log (snd (final (Sound.onUpdate (fst lead_in_world)
                        (snd lead_in_world)))))
  = calls_from (FromBeat 0) (log (snd lead_in_world)).
Proof.
  assert (H : elapsed (fst lead_in_world, snd lead_in_world)
              <= Sound._offsetTime (fst lead_in_world))
    by (apply Qle_bool_iff; reflexivity).
  split; [reflexivity|]. split; [reflexivity|].
  split; [apply Qeq_bool_iff; reflexivity|].
  split; [apply Qeq_bool_iff; reflexivity|].
  split; [exact H|]. split.
  - exact (proj1 (beats_wait_for_offset _ _ H)).
  - exact (proj2 (beats_wait_for_offset _ _ H) 0%nat).
Defined.

(** ** The order of the calls in a frame pass *)

Lemma call_indices_app (l1 l2 : list Event) :
  call_indices (l1 ++ l2) = call_indices l1 ++ call_indices l2.
Proof. unfold call_indices. apply flat_map_app. Qed.

Section Ordered.

Context {X : Type} (f : nat -> X -> Host -> Outcome (X * Host)).
Variable kind : Event -> bool.

Hypothesis one_call :
  forall j x h,
    exists d,
      log (snd (final (f j x h))) = log h ++ d /\
      forallb kind d = true /\
      (call_indices d = [] \/ call_indices d = [j]).

Lemma for_each_ordered :
  forall (xs : list X) (j : nat) (h : Host),
    exists d,
      log (snd (final (for_each f j xs h))) = log h ++ d /\
      forallb kind d = true /\
      StronglySorted lt (call_indices d) /\
      Forall (fun n => (j <= n)%nat) (call_indices d).
Proof.
  induction xs as [|x rest IH]; intros j h; cbn [for_each].
  - exists []. cbn. rewrite app_nil_r.
    repeat split; constructor.
  - destruct (one_call j x h) as [d1 [Hd1 [Hk1 Hc1]]].
    destruct (f j x h) as [[x' h']|[x' h']]; cbn [final snd] in Hd1.
    + rewrite final_omap.
      destruct (IH (S j) h') as [d2 [Hd2 [Hk2 [Hs2 Hf2]]]].
      destruct (final (for_each f (S j) rest h')) as [rest' h''].
      cbn [snd] in *.
      exists (d1 ++ d2). rewrite Hd2, Hd1, app_assoc.
      split; [reflexivity|]. split; [now rewrite forallb_app, Hk1, Hk2|].
      rewrite call_indices_app.
      destruct Hc1 as [-> | ->]; cbn [app].
      * split; [exact Hs2|].
        eapply Forall_impl; [|exact Hf2]. cbv beta. intros; lia.
      * split.
        -- constructor; [exact Hs2|].
           eapply Forall_impl; [|exact Hf2]. cbv beta. intros; lia.
        -- constructor; [lia|].
           eapply Forall_impl; [|exact Hf2]. cbv beta. intros; lia.
    + cbn [final snd].
      exists d1. split; [exact Hd1|]. split; [exact Hk1|].
      destruct Hc1 as [-> | ->].
      * split; constructor.
      * split; repeat constructor.
Qed.

End Ordered.

Lemma section_step_one_call (now : Q) (j : nat) (x : SectionObj) (h : Host) :
  exists d,
    log (snd (final (section_step now j x h))) = log h ++ d /\
    forallb is_section_event d = true /\
    (call_indices d = [] \/ call_indices d = [j]).
Proof.
  unfold section_step, run_callback.
  destruct (eval_condition now x).
  - destruct (callback x) as [cb|cb].
    + rewrite final_omap. unfold invoke.
      exists [Invoked (FromSection j) cb None].
      destruct (cb_throws cb); simpl; auto.
    + unfold invoke.
      exists [ConsoleLog "once :" (label x);
              Invoked (FromSection j) cb None].
      destruct (cb_throws cb); simpl; rewrite <- app_assoc; auto.
  - exists []. simpl. rewrite app_nil_r. auto.
Qed.

Lemma invoke_opt_one_call (kind : Event -> bool) (o : Origin)
  (cb : option UserCallback) (arg : option value) (h : Host) :
  (forall f, kind (Invoked o f arg) = true) ->
  exists d,
    log (final (invoke_opt o cb arg h)) = log h ++ d /\
    forallb kind d = true /\
    (call_indices d = [] \/ call_indices d = [origin_index o]).
Proof.
  intro Hk. exists (calls o cb arg). split; [apply invoke_opt_log|].
  destruct cb as [f|]; simpl; [rewrite Hk|]; auto.
Qed.

Lemma kick_calc_one_call (j : nat) (sp : list Z) (k : Kick.t) (h : Host) :
  exists d,
    log (snd (final (Kick.calc (FromKick j) sp k h))) = log h ++ d /\
    forallb is_kick_event d = true /\
    (call_indices d = [] \/ call_indices d = [j]).
Proof.
  unfold Kick.calc.
  destruct (negb (Kick.isOn k)).
  - exists []. simpl. rewrite app_nil_r. auto.
  - match goal with |- context [if ?b then _ else _] => destruct b end.
    + pose proof (invoke_opt_one_call is_kick_event (FromKick j)
                    (Kick.onKick k)
                    (Some (Kick.maxAmplitude sp (Kick.frequency k))) h
                    (fun _ => eq_refl)) as Hi.
      simpl Kick.onKick.
      destruct (invoke_opt (FromKick j) (Kick.onKick k) _ h); exact Hi.
    + pose proof (invoke_opt_one_call is_kick_event (FromKick j)
                    (Kick.offKick k)
                    (Some (Kick.maxAmplitude sp (Kick.frequency k))) h
                    (fun _ => eq_refl)) as Hi.
      destruct (invoke_opt (FromKick j) (Kick.offKick k) _ h); exact Hi.
Qed.

Lemma beat_calc_one_call (j : nat) (t bd : Q) (b : Beat.t) (h : Host) :
  exists d,
    log (snd (final (Beat.calc (FromBeat j) t bd b h))) = log h ++ d /\
    forallb is_beat_event d = true /\
    (call_indices d = [] \/ call_indices d = [j]).
Proof.
  assert (Hnil : exists d, log h = log h ++ d /\
                           forallb is_beat_event d = true /\
                           (call_indices d = [] \/ call_indices d = [j])).
  { exists []. rewrite app_nil_r. auto. }
  unfold Beat.calc.
  destruct (Qeq_bool t 0); [exact Hnil|].
  destruct (Qle_bool _ t); [|exact Hnil].
  destruct (Beat.isOn b); [|exact Hnil].
  pose proof (invoke_opt_one_call is_beat_event (FromBeat j)
                (Beat.onBeat b) None h (fun _ => eq_refl)) as Hi.
  destruct (invoke_opt (FromBeat j) (Beat.onBeat b) None h); exact Hi.
Qed.

(** X9.  The calls of a frame pass come in three runs: first those of the
    sections (with the console lines of [onceAt]), then those of the
    detectors, then those of the metronomes; within each run the objects
    are called in the order of their registration, none of them twice.
    This holds for the part of a pass an exception cut short, too. *)
Theorem pass_calls_in_registration_order (s : Sound.t) (h : Host) :
  exists ls lk lb,
    log (snd (final (Sound.onUpdate s h))) = log h ++ ls ++ lk ++ lb /\
    forallb is_section_event ls = true /\
    forallb is_kick_event lk = true /\
    forallb is_beat_event lb = true /\
    StronglySorted lt (call_indices ls) /\
    StronglySorted lt (call_indices lk) /\
    StronglySorted lt (call_indices lb).
Proof.
  destruct (onUpdate_final s h) as [Hf _]. rewrite Hf. clear Hf.
  set (h0 := snd (requestAnimationFrame h)).
  set (o1 := for_each _ 0 (Sound._sections s) h0).
  set (o2 := for_each _ 0 (Sound._kicks s) (snd (final o1))).
  set (o3 := for_each _ 0 (Sound._beats s) (snd (final o2))).
  destruct (for_each_ordered _ is_section_event
              (section_step_one_call (Sound.time s h))
              (Sound._sections s) 0%nat h0) as [ls [L1 [K1 [S1 _]]]].
  fold o1 in L1. change (log h0) with (log h) in L1.
  destruct (for_each_ordered
              (fun i => Kick.calc (FromKick i)
                          (Sound.getSpectrum (snd (final o1))))
              is_kick_event
              (fun j x hh => kick_calc_one_call j _ x hh)
              (Sound._kicks s) 0%nat (snd (final o1)))
    as [lk [L2 [K2 [S2 _]]]].
  fold o2 in L2.
  destruct (for_each_ordered
              (fun i => Beat.calc (FromBeat i)
                          (Math_max 0 (Sound.time s (snd (final o2))
                                       - Sound._offsetTime s))
                          (Sound._beatDuration s))
              is_beat_event
              (fun j x hh => beat_calc_one_call j _ _ x hh)
              (Sound._beats s) 0%nat (snd (final o2)))
    as [lb [L3 [K3 [S3 _]]]].
  fold o3 in L3.
  destruct (returned o1); [destruct (returned o2)|]; cbn [snd].
  - exists ls, lk, lb. rewrite L3, L2, L1, <- !app_assoc. auto 10.
  - exists ls, lk, []. rewrite L2, L1, app_nil_r, <- !app_assoc.
    repeat split; auto; constructor.
  - exists ls, [], []. rewrite L1. cbn [app]. rewrite app_nil_r.
    repeat split; auto; constructor.
Qed.

(** ** The magnitude over a range of bins *)

Lemma at_number_integer (fft : list Z) (i : Q) (z : Z) :
  i == inject_Z z -> Kick.at_number fft i = Kick.at_index fft z.
Proof.
  intro H. unfold Kick.at_number.
  assert (Hf : Qfloor i = z).
  { rewrite (Qfloor_comp _ _ H). apply Qfloor_Z. }
  rewrite Hf. apply Qeq_bool_iff in H. now rewrite H.
Qed.








(** ** The adaptive threshold over several frames *)

Lemma js_ge_trans_num (v : value) (m t : Q) :
  t <= m -> js_ge v (VNum m) = true -> js_ge v (VNum t) = true.
Proof.
  unfold js_ge. cbn [ToNumber]. destruct (ToNumber v) as [q|]; [|auto].
  intros Htm H. apply Qle_bool_iff in H. apply Qle_bool_iff.
  apply Qle_trans with m; assumption.
Qed.

(** X12.  After a kick at magnitude [m], the next frame is a kick exactly
    when its magnitude is at least [m]: a level that holds retriggers, a
    level that falls does not, however far above the base threshold it
    still is.  (Detector on, callbacks returning.) *)
Theorem kick_retriggers_at_or_above_peak
  (self : Origin) (sp1 sp2 : list Z) (k : Kick.t) (h h2 : Host) (m : Q) :
  Kick.isOn k = true ->
  quiet_kick k = true ->
  Kick.maxAmplitude sp1 (Kick.frequency k) = VNum m ->
  js_ge (VNum m) (Kick.currentThreshold k)
  && js_ge (VNum m) (VNum (Kick.threshold k)) = true ->
  let k1 := fst (final (Kick.calc self sp1 k h)) in
  Kick.isKick k1 = true /\
  Kick.currentThreshold k1 = VNum m /\
  Kick.isKick (fst (final (Kick.calc self sp2 k1 h2)))
  = js_ge (Kick.maxAmplitude sp2 (Kick.frequency k)) (VNum m).
Proof.
  intros Hon Hq Hm Hc k1.
  assert (Hk1 : k1 = Kick.with_isKick true
                       (Kick.with_currentThreshold (VNum m) k)).
  { subst k1. unfold Kick.calc. rewrite Hon, Hm, Hc. cbn [negb].
    unfold quiet_kick in Hq. apply andb_true_iff in Hq.
    destruct Hq as [Hq _]. cbn [Kick.onKick Kick.with_currentThreshold].
    destruct (Kick.onKick k) as [f|]; cbn [invoke_opt]; [|reflexivity].
    unfold invoke. cbn in Hq. apply negb_true_iff in Hq. now rewrite Hq. }
  rewrite Hk1. split; [reflexivity|]. split; [reflexivity|].
  unfold Kick.calc. cbn [Kick.isOn Kick.with_isKick
                          Kick.with_currentThreshold Kick.frequency
                          Kick.currentThreshold Kick.threshold
                          Kick.onKick Kick.offKick Kick.decay].
  rewrite Hon. cbn [negb].
  apply andb_true_iff in Hc. destruct Hc as [_ Hthr].
  unfold js_ge in Hthr. cbn [ToNumber] in Hthr. apply Qle_bool_iff in Hthr.
  unfold quiet_kick in Hq. apply andb_true_iff in Hq.
  destruct Hq as [Hq1 Hq2].
  destruct (js_ge (Kick.maxAmplitude sp2 (Kick.frequency k)) (VNum m))
    eqn:E.
  - rewrite (js_ge_trans_num _ m _ Hthr E). cbn [andb].
    destruct (Kick.onKick k) as [f|]; cbn [invoke_opt]; [|reflexivity].
    unfold invoke. cbn in Hq1. apply negb_true_iff in Hq1.
    now rewrite Hq1.
  - cbn [andb].
    destruct (Kick.offKick k) as [f|]; cbn [invoke_opt]; [|reflexivity].
    unfold invoke. cbn in Hq2. apply negb_true_iff in Hq2.
    now rewrite Hq2.
Qed.

Lemma kick_retriggers_at_or_above_peak_witness :
  Kick.isKick
    (fst (final (Kick.calc (FromKick 0) [299%Z]
                   (fst (final (Kick.calc (FromKick 0) [300%Z] trace_kick
                                  (fresh_host 0 []))))
                   (fresh_host 0 []))))
  = js_ge (Kick.maxAmplitude [299%Z] (Kick.frequency trace_kick)) (VNum 300).
Proof.
  exact (proj2 (proj2 (kick_retriggers_at_or_above_peak (FromKick 0)
                         [300%Z] [299%Z] trace_kick (fresh_host 0 [])
                         (fresh_host 0 []) 300 eq_refl eq_refl eq_refl
                         eq_refl))).
Defined.

Lemma kick_run_decay (self : Origin) :
  forall (spectra : list (list Z)) (k : Kick.t) (h : Host) (c : Q),
    Kick.isOn k = true ->
    Kick.currentThreshold k = VNum c ->
    throws_opt (Kick.offKick k) = false ->
    Forall (fun sp => js_ge (Kick.maxAmplitude sp (Kick.frequency k))
                            (VNum (Kick.threshold k)) = false) spectra ->
    let k' := fst (kick_run self spectra k h) in
    let h' := snd (kick_run self spectra k h) in
    kept_kick k k' /\
    (exists c', Kick.currentThreshold k' = VNum c' /\
                c' == c - inject_Z (Z.of_nat (List.length spectra))
                          * Kick.decay k) /\
    (spectra <> [] -> Kick.isKick k' = false) /\
    calls_from self (log h')
    = (calls_from self (log h)
       + List.length spectra * present (Kick.offKick k))%nat.
Proof.
  induction spectra as [|sp rest IH]; intros k h c Hon Hc Hq Hall;
    cbv zeta.
  - cbn [kick_run fst snd List.length].
    split; [repeat split|]. split.
    + exists c. split; [exact Hc|]. cbn. ring.
    + split; [intro H; contradiction|lia].
  - inversion Hall as [|? ? Hsp Hrest]. subst.
    cbn [kick_run].
    assert (Hstep : Kick.calc self sp k h
                    = Normal (Kick.with_isKick false
                                (Kick.with_currentThreshold
                                   (VNum (c - Kick.decay k)) k),
                              final (invoke_opt self (Kick.offKick k)
                                       (Some (Kick.maxAmplitude sp
                                                (Kick.frequency k))) h))).
    { unfold Kick.calc. rewrite Hon, Hsp, andb_false_r. cbn [negb].
      rewrite Hc.
      destruct (Kick.offKick k) as [f|]; cbn [invoke_opt]; [|reflexivity].
      unfold invoke. cbn in Hq. now rewrite Hq. }
    rewrite Hstep. cbn [final].
    set (k1 := Kick.with_isKick false
                 (Kick.with_currentThreshold (VNum (c - Kick.decay k)) k)).
    set (h1 := final (invoke_opt self (Kick.offKick k) _ h)).
    destruct (IH k1 h1 (c - Kick.decay k) Hon eq_refl Hq Hrest)
      as [Hkept [[c' [Hc' Hv]] [Hflag Hcalls]]].
    split; [|split; [|split]].
    + destruct Hkept as [A [B [C [D [E F]]]]].
      repeat split; assumption.
    + exists c'. split; [exact Hc'|]. rewrite Hv.
      cbn [List.length Kick.decay Kick.with_isKick
           Kick.with_currentThreshold k1].
      rewrite Nat2Z.inj_succ, <- Z.add_1_r, inject_Z_plus.
      change (inject_Z 1) with 1. ring.
    + intros _. destruct rest as [|sp2 rest2].
      * reflexivity.
      * apply Hflag. discriminate.
    + rewrite Hcalls. unfold h1.
      rewrite invoke_opt_calls, origin_eqb_refl.
      cbn [List.length Nat.b2n Kick.offKick Kick.with_isKick
           Kick.with_currentThreshold k1]. lia.
Qed.

(** X13.  Between kicks the adaptive threshold falls in a straight line.
    For a detector that is on, over [n] frames whose magnitude stays under
    the base threshold: no frame is a kick, [offKick] (if present and
    returning) is called on each of them, and the adaptive threshold ends
    [n] times the decay below its start, with no floor.  Nothing else of
    the detector changes. *)
Theorem kick_threshold_decays_linearly
  (self : Origin) (spectra : list (list Z)) (k : Kick.t) (h : Host) (c : Q) :
  Kick.isOn k = true ->
  Kick.currentThreshold k = VNum c ->
  throws_opt (Kick.offKick k) = false ->
  Forall (fun sp => js_ge (Kick.maxAmplitude sp (Kick.frequency k))
                          (VNum (Kick.threshold k)) = false) spectra ->
  let k' := fst (kick_run self spectra k h) in
  let h' := snd (kick_run self spectra k h) in
  kept_kick k k' /\
  (exists c', Kick.currentThreshold k' = VNum c' /\
              c' == c - inject_Z (Z.of_nat (List.length spectra))
                        * Kick.decay k) /\
  (spectra <> [] -> Kick.isKick k' = false) /\
  calls_from self (log h')
  = (calls_from self (log h)
     + List.length spectra * present (Kick.offKick k))%nat.
Proof. apply kick_run_decay. Qed.

Lemma kick_threshold_decays_linearly_witness :
  exists c',
    Kick.currentThreshold
      (fst (kick_run (FromKick 0) [[10%Z]; [20%Z]; [30%Z]] trace_kick
              (fresh_host 0 []))) = VNum c' /\
    c' == 230 - inject_Z (Z.of_nat 3) * 5.
Proof.
  assert (Hall : Forall
                   (fun sp => js_ge (Kick.maxAmplitude sp
                                       (Kick.frequency trace_kick))
                                    (VNum (Kick.threshold trace_kick))
                              = false)
                   [[10%Z]; [20%Z]; [30%Z]])
    by (repeat constructor).
  exact (proj1 (proj2
           (kick_threshold_decays_linearly (FromKick 0)
              [[10%Z]; [20%Z]; [30%Z]] trace_kick (fresh_host 0 []) 230
              eq_refl eq_refl eq_refl Hall))).
Defined.

(** ** Reconfiguring with [set] *)

(** X14.  [set] composes and never resets.  Setting a detector (or a
    metronome) twice is setting it once with the second configuration laid
    over the first; setting it with the same configuration again changes
    nothing more; and no [set] touches the on/off switch, the kick flag,
    the adaptive threshold or the metronome's accumulator, or takes away a
    callback that was there. *)
Theorem set_composes_and_keeps_state :
  (forall c1 c2 k,
     Kick.set c2 (Kick.set c1 k) = Kick.set (kick_config_then c1 c2) k) /\
  (forall c k, Kick.set c (Kick.set c k) = Kick.set c k) /\
  (forall c k,
     Kick.isOn (Kick.set c k) = Kick.isOn k /\
     Kick.isKick (Kick.set c k) = Kick.isKick k /\
     Kick.currentThreshold (Kick.set c k) = Kick.currentThreshold k /\
     (Kick.onKick (Kick.set c k) = None -> Kick.onKick k = None) /\
     (Kick.offKick (Kick.set c k) = None -> Kick.offKick k = None)) /\
  (forall c1 c2 b,
     Beat.set c2 (Beat.set c1 b) = Beat.set (beat_config_then c1 c2) b) /\
  (forall c b, Beat.set c (Beat.set c b) = Beat.set c b) /\
  (forall c b,
     Beat.isOn (Beat.set c b) = Beat.isOn b /\
     Beat.currentTime (Beat.set c b) = Beat.currentTime b /\
     (Beat.onBeat (Beat.set c b) = None -> Beat.onBeat b = None)).
Proof.
  repeat split.
  - destruct c1 as [[?|] [?|] [?|] [?|] [?|]],
             c2 as [[?|] [?|] [?|] [?|] [?|]]; reflexivity.
  - destruct c as [[?|] [?|] [?|] [?|] [?|]]; reflexivity.
  - cbn. destruct (Kick.cfg_onKick c); [discriminate|auto].
  - cbn. destruct (Kick.cfg_offKick c); [discriminate|auto].
  - destruct c1 as [[?|] [?|]], c2 as [[?|] [?|]]; reflexivity.
  - destruct c as [[?|] [?|]]; reflexivity.
  - cbn. destruct (Beat.cfg_onBeat c); [discriminate|auto].
Qed.

Lemma set_composes_and_keeps_state_witness :
  Kick.onKick (Kick.set backwards_range trace_kick) = None /\
  Kick.onKick trace_kick = None.
Proof.
  split; [reflexivity|].
  exact (proj1 (proj2 (proj2 (proj2
           (proj1 (proj2 (proj2 set_composes_and_keeps_state))
              backwards_range trace_kick)))) eq_refl).
Defined.

(** ** The metronome over several frames *)

Lemma beat_calc_enabled (self : Origin) (t bd : Q) (b : Beat.t) (h : Host)
  (cb : UserCallback) :
  Beat.isOn b = true -> Beat.onBeat b = Some cb -> cb_throws cb = false ->
  Beat.calc self t bd b h
  = if negb (Qeq_bool t 0)
       && Qle_bool (Beat.currentTime b + bd * Beat.factor b) t
    then Normal (Beat.with_currentTime
                   (Beat.currentTime b + bd * Beat.factor b) b,
                 emit (Invoked self cb None) h)
    else Normal (b, h).
Proof.
  intros Hon Hcb Hq. unfold Beat.calc.
  destruct (Qeq_bool t 0); [reflexivity|]. cbn [negb andb].
  destruct (Qle_bool _ t); [|reflexivity].
  rewrite Hon, Hcb. cbn [invoke_opt]. unfold invoke. now rewrite Hq.
Qed.

Lemma emit_calls_self (self : Origin) (cb : UserCallback) (h : Host) :
  calls_from self (log (emit (Invoked self cb None) h))
  = S (calls_from self (log h)).
Proof.
  cbn [emit log]. rewrite calls_from_app. unfold calls_from at 2.
  cbn. rewrite origin_eqb_refl. cbn. lia.
Qed.

Lemma beat_frames_count (self : Origin) (bd T : Q) (cb : UserCallback) :
  forall (times : list Q) (b : Beat.t) (h : Host),
    Beat.isOn b = true -> Beat.onBeat b = Some cb -> cb_throws cb = false ->
    Beat.currentTime b <= T ->
    Forall (fun t => t <= T) times ->
    let b' := fst (beat_frames self times bd b h) in
    let h' := snd (beat_frames self times bd b h) in
    exists n : nat,
      calls_from self (log h') = (calls_from self (log h) + n)%nat /\
      Beat.currentTime b'
      == Beat.currentTime b + inject_Z (Z.of_nat n) * (bd * Beat.factor b) /\
      Beat.currentTime b' <= T.
Proof.
  induction times as [|t rest IH]; intros b h Hon Hcb Hq Hcur Hall;
    cbv zeta.
  - exists 0%nat. cbn. split; [lia|]. split; [ring|exact Hcur].
  - inversion Hall as [|? ? Ht Hrest]. subst.
    cbn [beat_frames]. rewrite (beat_calc_enabled self t bd b h cb Hon Hcb Hq).
    destruct (negb (Qeq_bool t 0)
              && Qle_bool (Beat.currentTime b + bd * Beat.factor b) t)
      eqn:E; cbn [final].
    + apply andb_true_iff in E. destruct E as [_ E].
      apply Qle_bool_iff in E.
      destruct (IH (Beat.with_currentTime
                      (Beat.currentTime b + bd * Beat.factor b) b)
                  (emit (Invoked self cb None) h) Hon Hcb Hq
                  ltac:(cbn; apply Qle_trans with t; assumption) Hrest)
        as [n [Hc [Hv Hb]]].
      exists (S n). split; [|split; [|exact Hb]].
      * rewrite Hc, emit_calls_self. lia.
      * rewrite Hv. cbn [Beat.currentTime Beat.factor Beat.with_currentTime].
        rewrite Nat2Z.inj_succ, <- Z.add_1_r, inject_Z_plus.
        change (inject_Z 1) with 1. ring.
    + destruct (IH b h Hon Hcb Hq Hcur Hrest) as [n Hn]. exists n. exact Hn.
Qed.

(** X15.  A metronome never runs ahead of the playback time and fires
    once per interval it has counted.  Over any frames with playback times
    up to [T], a metronome that is on, with a callback that returns, and
    that was not ahead of [T] at the start: the calls of [onBeat] number
    exactly the intervals its accumulator has advanced, and the accumulator
    stays at or below [T]; so the beats fired, times the interval, never
    exceed the time that has passed. *)
Theorem beat_counts_elapsed_intervals
  (self : Origin) (times : list Q) (bd T : Q) (b : Beat.t) (h : Host)
  (cb : UserCallback) :
  Beat.isOn b = true -> Beat.onBeat b = Some cb -> cb_throws cb = false ->
  Beat.currentTime b <= T ->
  Forall (fun t => t <= T) times ->
  let b' := fst (beat_frames self times bd b h) in
  let h' := snd (beat_frames self times bd b h) in
  exists n : nat,
    calls_from self (log h') = (calls_from self (log h) + n)%nat /\
    Beat.currentTime b'
    == Beat.currentTime b + inject_Z (Z.of_nat n) * (bd * Beat.factor b) /\
    Beat.currentTime b' <= T /\
    inject_Z (Z.of_nat n) * (bd * Beat.factor b) <= T - Beat.currentTime b.
Proof.
  intros Hon Hcb Hq Hcur Hall b' h'.
  destruct (beat_frames_count self bd T cb times b h Hon Hcb Hq Hcur Hall)
    as [n [Hc [Hv Hb]]].
  exists n. fold b' in Hv, Hb. fold h' in Hc.
  repeat split; try assumption. lra.
Qed.

Lemma beat_counts_elapsed_intervals_witness :
  exists n : nat,
    calls_from (FromBeat 0)
      (log (snd (beat_frames (FromBeat 0) [1 # 4; 3 # 4; 5 # 2] (1 # 2)
                   demo_beat (fresh_host 0 []))))
    = (calls_from (FromBeat 0) (log (fresh_host 0 [])) + n)%nat /\
    inject_Z (Z.of_nat n) * ((1 # 2) * Beat.factor demo_beat)
    <= 3 - Beat.currentTime demo_beat.
Proof.
  assert (Hall : Forall (fun t => t <= 3) [1 # 4; 3 # 4; 5 # 2]).
  { repeat constructor; unfold Qle; simpl; lia. }
  assert (Hcur : Beat.currentTime demo_beat <= 3)
    by (unfold Qle; simpl; lia).
  destruct (beat_counts_elapsed_intervals (FromBeat 0) [1 # 4; 3 # 4; 5 # 2]
              (1 # 2) 3 demo_beat (fresh_host 0 []) tick
              eq_refl eq_refl eq_refl Hcur Hall) as [n [Hc [_ [_ Hb]]]].
  exists n. split; [exact Hc|exact Hb].
Defined.

Lemma last_cons_default {A} (a d : A) (l : list A) :
  last (a :: l) d = last l a.
Proof.
  revert a d. induction l as [|x l IH]; intros a d; [reflexivity|].
  change (last (a :: x :: l) d) with (last (x :: l) d).
  now rewrite (IH x d), (IH x a).
Qed.

Lemma beat_frames_paced (self : Origin) (bd : Q) (cb : UserCallback) :
  forall (times : list Q) (b : Beat.t) (h : Host) (t0 : Q),
    Beat.isOn b = true -> Beat.onBeat b = Some cb -> cb_throws cb = false ->
    0 < bd * Beat.factor b ->
    0 <= Beat.currentTime b ->
    Beat.currentTime b <= t0 ->
    t0 < Beat.currentTime b + bd * Beat.factor b ->
    paced (bd * Beat.factor b) t0 times ->
    let b' := fst (beat_frames self times bd b h) in
    let h' := snd (beat_frames self times bd b h) in
    exists n : nat,
      calls_from self (log h') = (calls_from self (log h) + n)%nat /\
      Beat.currentTime b'
      == Beat.currentTime b + inject_Z (Z.of_nat n) * (bd * Beat.factor b) /\
      Beat.currentTime b' <= last times t0 /\
      last times t0 < Beat.currentTime b' + bd * Beat.factor b.
Proof.
  induction times as [|t rest IH];
    intros b h t0 Hon Hcb Hq Hiv H0 Hlo Hhi Hp; cbv zeta.
  - exists 0%nat. cbn. split; [lia|]. split; [ring|]. split; assumption.
  - destruct Hp as [Hle [Hlt Hrest]].
    rewrite last_cons_default.
    cbn [beat_frames]. rewrite (beat_calc_enabled self t bd b h cb Hon Hcb Hq).
    destruct (Qeq_bool t 0) eqn:Ez; cbn [negb andb].
    + apply Qeq_bool_iff in Ez. cbn [final].
      destruct (IH b h t Hon Hcb Hq Hiv H0 ltac:(lra) ltac:(lra) Hrest)
        as [n Hn].
      exists n. exact Hn.
    + destruct (Qle_bool (Beat.currentTime b + bd * Beat.factor b) t)
        eqn:E; cbn [final].
      * apply Qle_bool_iff in E.
        destruct (IH (Beat.with_currentTime
                        (Beat.currentTime b + bd * Beat.factor b) b)
                    (emit (Invoked self cb None) h) t Hon Hcb Hq Hiv
                    ltac:(cbn; lra) ltac:(cbn; lra) ltac:(cbn; lra) Hrest)
          as [n [Hc [Hv Hb]]].
        exists (S n). split; [|split; [|exact Hb]].
        -- rewrite Hc, emit_calls_self. lia.
        -- rewrite Hv.
           cbn [Beat.currentTime Beat.factor Beat.with_currentTime].
           rewrite Nat2Z.inj_succ, <- Z.add_1_r, inject_Z_plus.
           change (inject_Z 1) with 1. ring.
      * apply Qle_bool_false_iff in E.
        destruct (IH b h t Hon Hcb Hq Hiv H0 ltac:(lra) ltac:(lra) Hrest)
          as [n Hn].
        exists n. exact Hn.
Qed.

(** X16.  With frames less than one interval apart the metronome keeps
    up.  For a metronome that is on, with a callback that returns, a
    positive interval and an accumulator that is not negative and within
    one interval below the playback time: after any run of frames whose
    playback times never fall back and never jump by a whole interval, the
    accumulator is again at or below the last playback time and less than
    one interval behind it, and [onBeat] has been called once for each
    interval it advanced.  From a new metronome (accumulator 0) the beats
    fired are thus the whole intervals contained in the playback time. *)
Theorem beat_keeps_up_with_paced_frames
  (self : Origin) (times : list Q) (bd : Q) (b : Beat.t) (h : Host)
  (t0 : Q) (cb : UserCallback) :
  Beat.isOn b = true -> Beat.onBeat b = Some cb -> cb_throws cb = false ->
  0 < bd * Beat.factor b ->
  0 <= Beat.currentTime b ->
  Beat.currentTime b <= t0 ->
  t0 < Beat.currentTime b + bd * Beat.factor b ->
  paced (bd * Beat.factor b) t0 times ->
  let b' := fst (beat_frames self times bd b h) in
  let h' := snd (beat_frames self times bd b h) in
  exists n : nat,
    calls_from self (log h') = (calls_from self (log h) + n)%nat /\
    Beat.currentTime b'
    == Beat.currentTime b + inject_Z (Z.of_nat n) * (bd * Beat.factor b) /\
    Beat.currentTime b' <= last times t0 /\
    last times t0 < Beat.currentTime b' + bd * Beat.factor b.
Proof. apply beat_frames_paced. Qed.

Lemma beat_keeps_up_with_paced_frames_witness :
  exists n : nat,
    calls_from (FromBeat 0)
      (log (snd (beat_frames (FromBeat 0) [1 # 4; 3 # 5; 1; 7 # 5] (1 # 2)
                   demo_beat (fresh_host 0 []))))
    = (calls_from (FromBeat 0) (log (fresh_host 0 [])) + n)%nat /\
    Beat.currentTime
      (fst (beat_frames (FromBeat 0) [1 # 4; 3 # 5; 1; 7 # 5] (1 # 2)
              demo_beat (fresh_host 0 [])))
    <= last [1 # 4; 3 # 5; 1; 7 # 5] 0.
Proof.
  assert (Hp : paced ((1 # 2) * Beat.factor demo_beat) 0
                 [1 # 4; 3 # 5; 1; 7 # 5]).
  { cbn. repeat split; unfold Qle, Qlt; simpl; lia. }
  destruct (beat_keeps_up_with_paced_frames (FromBeat 0)
              [1 # 4; 3 # 5; 1; 7 # 5] (1 # 2) demo_beat (fresh_host 0 [])
              0 tick eq_refl eq_refl eq_refl
              ltac:(unfold Qlt; simpl; lia) ltac:(unfold Qle; simpl; lia)
              ltac:(unfold Qle; simpl; lia) ltac:(unfold Qlt; simpl; lia)
              Hp) as [n [Hc [_ [Hb _]]]].
  exists n. split; [exact Hc|exact Hb].
Defined.

(** ** A metronome that is off *)

Lemma beat_frames_kept (self : Origin) (times : list Q) (bd : Q) :
  forall (b : Beat.t) (h : Host),
    kept_beat b (fst (beat_frames self times bd b h)).
Proof.
  induction times as [|t rest IH]; intros b h; cbn [beat_frames].
  - repeat split.
  - pose proof (beat_calc_kept self t bd b h) as [K1 [K2 K3]].
    destruct (final (Beat.calc self t bd b h)) as [b' h'] eqn:E.
    cbn [fst] in K1, K2, K3.
    destruct (IH b' h') as [J1 [J2 J3]].
    repeat split; congruence.
Qed.

(** C6, as stated, fails: the accumulator moves by one interval per frame
    and no more, so a metronome that was off through ten frames one second
    apart, with an interval of half a second, has counted ten of the twenty
    intervals that went by.  Switched on at the tenth second it fires on
    each of the next ten frames, a sixth of a second in all, for intervals
    that ended while it was off. *)
Lemma reenabled_beat_bursts :
  let idle := beat_frames (FromBeat 0) sparse_frames (1 # 2)
                (Beat.off demo_beat) (fresh_host 0 []) in
  let resumed := beat_frames (FromBeat 0) dense_frames (1 # 2)
                   (Beat.on (fst idle)) (snd idle) in
  snd idle = fresh_host 0 [] /\
  Beat.currentTime (fst idle) == 5 /\
  List.length dense_frames = 10%nat /\
  calls_from (FromBeat 0) (log (snd resumed)) = 10%nat /\
  Beat.currentTime (fst resumed) == 10.
Proof.
  vm_compute. repeat split; reflexivity.
Qed.

(** C6, amended.  A metronome that is off never calls [onBeat] and
    otherwise runs as one that is on.  On a frame whose playback time is
    not 0 (at 0 [calc] returns before it compares) and has reached
    [nextFireTime + interval], the accumulator moves by exactly one
    interval; on any other frame it stays; factor, callback and switch are
    never touched.  While the frames follow one another by less than an
    interval the accumulator therefore stays at or below the playback time
    and less than one interval behind it, and once the metronome is
    switched on, the beats fired up to any time [T], times the interval,
    are less than the time gone by since the last frame it was off plus
    one interval ([onBeat] being called once for each interval the
    accumulator moves): no interval that ended while it was off is made up
    for. *)
Theorem beat_disabled_still_advances :
  (forall (self : Origin) (t beatDuration : Q) (b : Beat.t) (h : Host),
     Beat.isOn b = false ->
     let out := Beat.calc self t beatDuration b h in
     let b' := fst (final out) in
     returned out = true /\
     snd (final out) = h /\
     Beat.factor b' = Beat.factor b /\
     Beat.onBeat b' = Beat.onBeat b /\
     Beat.isOn b' = false /\
     (~ t == 0 ->
      Beat.currentTime b + beatDuration * Beat.factor b <= t ->
      Beat.currentTime b'
      = Beat.currentTime b + beatDuration * Beat.factor b) /\
     (t == 0 \/ t < Beat.currentTime b + beatDuration * Beat.factor b ->
      Beat.currentTime b' = Beat.currentTime b)) /\
  (forall (self : Origin) (times later : list Q) (beatDuration T : Q)
          (b : Beat.t) (h : Host) (t0 : Q) (cb : UserCallback),
     Beat.isOn b = false ->
     Beat.onBeat b = Some cb -> cb_throws cb = false ->
     0 < beatDuration * Beat.factor b ->
     0 <= Beat.currentTime b ->
     Beat.currentTime b <= t0 ->
     t0 < Beat.currentTime b + beatDuration * Beat.factor b ->
     paced (beatDuration * Beat.factor b) t0 times ->
     last times t0 <= T ->
     Forall (fun t => t <= T) later ->
     let b1 := fst (beat_frames self times beatDuration b h) in
     let h1 := snd (beat_frames self times beatDuration b h) in
     let b2 := fst (beat_frames self later beatDuration (Beat.on b1) h1) in
     let h2 := snd (beat_frames self later beatDuration (Beat.on b1) h1) in
     h1 = h /\
     Beat.currentTime b1 <= last times t0 /\
     last times t0 < Beat.currentTime b1 + beatDuration * Beat.factor b /\
     exists n : nat,
       calls_from self (log h2) = (calls_from self (log h) + n)%nat /\
       Beat.currentTime b2
       == Beat.currentTime b1
          + inject_Z (Z.of_nat n) * (beatDuration * Beat.factor b) /\
       inject_Z (Z.of_nat n) * (beatDuration * Beat.factor b)
       < T - last times t0 + beatDuration * Beat.factor b).
Proof.
  split.
  - intros self t bd b h Hoff out b'. subst out b'.
    unfold Beat.calc. rewrite Hoff.
    destruct (Qeq_bool t 0) eqn:Ez.
    + apply Qeq_bool_iff in Ez. cbn.
      repeat split; try assumption; try reflexivity.
      intros Hn. contradiction.
    + destruct (Qle_bool (Beat.currentTime b + bd * Beat.factor b) t) eqn:E;
        cbn.
      * apply Qle_bool_iff in E.
        repeat split; try assumption; try reflexivity.
        intros [H0|Hlt].
        -- apply Qeq_bool_iff in H0. congruence.
        -- exfalso. apply (Qlt_not_le _ _ Hlt E).
      * apply Qle_bool_false_iff in E.
        repeat split; try assumption; try reflexivity.
        intros _ Hle. exfalso. apply (Qlt_not_le _ _ E Hle).
  - intros self times later bd T b h t0 cb Hoff Hcb Hq Hiv H0 Hlo Hhi Hp HT
           Hall b1 h1 b2 h2.
    assert (Hnt : throws_opt (Beat.onBeat b) = false)
      by (rewrite Hcb; exact Hq).
    destruct (beat_frames_disabled self times bd b h h Hoff)
      as [Hh [_ He]].
    specialize (He Hnt).
    destruct (beat_frames_paced self bd cb times (Beat.on b) h t0
                eq_refl Hcb Hq Hiv H0 Hlo Hhi Hp) as [n0 [_ [_ [Hb1 Hb2]]]].
    rewrite He in Hb1, Hb2.
    cbn [Beat.on Beat.with_isOn Beat.currentTime Beat.factor] in Hb1, Hb2.
    fold b1 in Hb1, Hb2.
    destruct (beat_frames_kept self times bd b h) as [Kf [Kcb _]].
    fold b1 in Kf, Kcb.
    assert (Hcb1 : Beat.onBeat (Beat.on b1) = Some cb)
      by (cbn; rewrite Kcb; exact Hcb).
    assert (Hcur : Beat.currentTime (Beat.on b1) <= T)
      by (cbn; apply Qle_trans with (last times t0); assumption).
    destruct (beat_frames_count self bd T cb later (Beat.on b1) h1
                eq_refl Hcb1 Hq Hcur Hall) as [n [Hc [Hv Hb]]].
    fold h2 in Hc. fold b2 in Hv, Hb.
    cbn [Beat.on Beat.with_isOn Beat.currentTime Beat.factor] in Hv, Hb.
    rewrite Kf in Hv.
    split; [exact Hh|]. split; [exact Hb1|]. split; [exact Hb2|].
    exists n. split; [|split; [exact Hv|]].
    + unfold h1 in Hc. rewrite Hh in Hc. exact Hc.
    + set (d := bd * Beat.factor b) in *.
      set (x := inject_Z (Z.of_nat n) * d) in *.
      lra.
Qed.

Lemma beat_disabled_still_advances_witness :
  Beat.currentTime
    (fst (final (Beat.calc (FromBeat 0) 2 (1 # 2) (Beat.off demo_beat)
                   (fresh_host 0 []))))
  = Beat.currentTime (Beat.off demo_beat)
    + (1 # 2) * Beat.factor (Beat.off demo_beat) /\
  paced ((1 # 2) * Beat.factor (Beat.off demo_beat)) 0
    [1 # 4; 3 # 5; 1; 7 # 5] /\
  Forall (fun t => t <= 5 # 2) [3 # 2; 2; 5 # 2] /\
  Beat.currentTime
    (fst (beat_frames (FromBeat 0) [1 # 4; 3 # 5; 1; 7 # 5] (1 # 2)
            (Beat.off demo_beat) (fresh_host 0 [])))
  <= last [1 # 4; 3 # 5; 1; 7 # 5] 0 /\
  calls_from (FromBeat 0)
    (log (snd (beat_frames (FromBeat 0) [3 # 2; 2; 5 # 2] (1 # 2)
                 (Beat.on
                    (fst (beat_frames (FromBeat 0)
                            [1 # 4; 3 # 5; 1; 7 # 5] (1 # 2)
                            (Beat.off demo_beat) (fresh_host 0 []))))
                 (snd (beat_frames (FromBeat 0)
                         [1 # 4; 3 # 5; 1; 7 # 5] (1 # 2)
                         (Beat.off demo_beat) (fresh_host 0 []))))))
  = 3%nat /\
  exists n : nat,
    calls_from (FromBeat 0)
      (log (snd (beat_frames (FromBeat 0) [3 # 2; 2; 5 # 2] (1 # 2)
                   (Beat.on
                      (fst (beat_frames (FromBeat 0)
                              [1 # 4; 3 # 5; 1; 7 # 5] (1 # 2)
                              (Beat.off demo_beat) (fresh_host 0 []))))
                   (snd (beat_frames (FromBeat 0)
                           [1 # 4; 3 # 5; 1; 7 # 5] (1 # 2)
                           (Beat.off demo_beat) (fresh_host 0 []))))))
    = (calls_from (FromBeat 0) (log (fresh_host 0 [])) + n)%nat /\
    inject_Z (Z.of_nat n) * ((1 # 2) * Beat.factor (Beat.off demo_beat))
    < (5 # 2) - last [1 # 4; 3 # 5; 1; 7 # 5] 0
      + (1 # 2) * Beat.factor (Beat.off demo_beat).
Proof.
  assert (Hp : paced ((1 # 2) * Beat.factor (Beat.off demo_beat)) 0
                 [1 # 4; 3 # 5; 1; 7 # 5]).
  { cbn. repeat split; unfold Qle, Qlt; simpl; lia. }
  assert (Hall : Forall (fun t => t <= 5 # 2) [3 # 2; 2; 5 # 2]).
  { repeat constructor; unfold Qle; simpl; lia. }
  pose proof beat_disabled_still_advances as [Hone Hrun].
  destruct (Hrun (FromBeat 0) [1 # 4; 3 # 5; 1; 7 # 5] [3 # 2; 2; 5 # 2]
              (1 # 2) (5 # 2) (Beat.off demo_beat) (fresh_host 0 []) 0 tick
              eq_refl eq_refl eq_refl
              ltac:(unfold Qlt; simpl; lia) ltac:(unfold Qle; simpl; lia)
              ltac:(unfold Qle; simpl; lia) ltac:(unfold Qlt; simpl; lia)
              Hp ltac:(unfold Qle; simpl; lia) Hall)
    as [_ [Hb1 [_ [n [Hc [_ Hn]]]]]].
  split; [|split; [exact Hp|split; [exact Hall|split; [exact Hb1|
    split; [reflexivity|exists n; split; [exact Hc|exact Hn]]]]]].
  apply (Hone (FromBeat 0) 2 (1 # 2) (Beat.off demo_beat) (fresh_host 0 [])
           eq_refl).
  - intro H; discriminate H.
  - unfold Qle; simpl; lia.
Defined.

(** ** [getFrequency] *)

(** When the divisor of [getFrequency] is 0 its loop has not run and the
    sum is 0: the division is 0/0. *)
Lemma sum_bins_zero_divisor (spectrum : list Z) (freq e : Q) (fuel : nat) :
  e - freq + 1 == 0 ->
  sum_bins spectrum freq e (VNum 0) fuel = VNum 0.
Proof.
  intro H. destruct fuel; cbn [sum_bins]; [reflexivity|].
  assert (Hlt : e < freq) by lra.
  apply Qle_bool_false_iff in Hlt. now rewrite Hlt.
Qed.

Lemma sum_bins_empty (spectrum : list Z) (i e : Q) (v : value) (fuel : nat) :
  e < i -> sum_bins spectrum i e v fuel = v.
Proof.
  intro H. destruct fuel; cbn [sum_bins]; [reflexivity|].
  apply Qle_bool_false_iff in H. now rewrite H.
Qed.



Lemma js_add_nan (v : value) : js_add VNaN v = VNaN.
Proof. reflexivity. Qed.





(** X18.  [getFrequency] never reads one bin.  Its second parameter
    defaults to [null], so the test for [undefined] always succeeds and the
    branch returning [spectrum[freq]] is never taken: a call with one
    argument is the call with [null], which sums the bins from [freq] up to
    0 and divides by [1 - freq].  For [freq] above 0 that is 0 (NaN at
    [freq] = 1, where the divisor is 0), whatever the spectrum; only at
    [freq] = 0 is it the value of the bin. *)
Theorem getFrequency_one_argument (freq : Q) (h : Host) :
  Sound.getFrequency freq VUndef h = Sound.getFrequency freq VNull h /\
  (0 < freq -> ~ freq == 1 ->
   exists q, Sound.getFrequency freq VUndef h = VNum q /\ q == 0) /\
  (freq == 1 -> Sound.getFrequency freq VUndef h = VNaN) /\
  (freq == 0 -> (0 < List.length (analyser h))%nat ->
   exists q, Sound.getFrequency freq VUndef h = VNum q /\
             q == inject_Z (nth 0 (analyser h) 0%Z)).
Proof.
  unfold Sound.getFrequency, Sound.getSpectrum. cbn [ToNumber].
  split; [reflexivity|]. split; [|split].
  - intros Hpos Hne. rewrite sum_bins_empty by exact Hpos.
    unfold js_div. cbn [ToNumber].
    rewrite (Qeq_bool_false _ 0) by (intro E; apply Hne; lra).
    eexists. split; [reflexivity|]. field. intro E. apply Hne. lra.
  - intro H1. rewrite sum_bins_empty by lra.
    unfold js_div. cbn [ToNumber].
    assert (E : Qeq_bool (0 - freq + 1) 0 = true)
      by (apply Qeq_bool_iff; lra).
    now rewrite E.
  - intros H0 Hlen.
    assert (Hfuel : Kick.scan_fuel freq 0 = 1%nat).
    { unfold Kick.scan_fuel.
      assert (Hf : Qfloor (0 - freq) = 0%Z).
      { rewrite <- (Qfloor_Z 0). apply Qfloor_comp. rewrite H0.
        reflexivity. }
      rewrite Hf. reflexivity. }
    rewrite Hfuel. cbn [sum_bins].
    assert (Eg : Qle_bool freq 0 = true) by (apply Qle_bool_iff; lra).
    rewrite Eg.
    rewrite (at_number_integer (analyser h) freq 0 H0).
    unfold Kick.at_index.
    assert (E : (0 <? Z.of_nat (List.length (analyser h)))%Z = true)
      by (apply Z.ltb_lt; lia).
    rewrite E. cbn [Z.leb andb js_add ToNumber Z.to_nat].
    unfold js_div. cbn [ToNumber].
    rewrite (Qeq_bool_false _ 0) by lra.
    eexists. split; [reflexivity|]. rewrite H0. field.
Qed.

Lemma getFrequency_one_argument_witness :
  (exists q, Sound.getFrequency 3 VUndef (fresh_host 0 [10; 20; 30; 70]%Z)
             = VNum q /\ q == 0) /\
  Sound.getFrequency 1 VUndef (fresh_host 0 [10; 20; 30; 70]%Z) = VNaN /\
  (exists q, Sound.getFrequency 0 VUndef (fresh_host 0 [10; 20; 30; 70]%Z)
             = VNum q /\
             q == inject_Z (nth 0 (analyser (fresh_host 0 [10; 20; 30; 70]%Z))
                              0%Z)).
Proof.
  pose proof (getFrequency_one_argument 3 (fresh_host 0 [10; 20; 30; 70]%Z))
    as [_ [H3 _]].
  pose proof (getFrequency_one_argument 1 (fresh_host 0 [10; 20; 30; 70]%Z))
    as [_ [_ [H1 _]]].
  pose proof (getFrequency_one_argument 0 (fresh_host 0 [10; 20; 30; 70]%Z))
    as [_ [_ [_ H0]]].
  split; [|split].
  - apply H3; [unfold Qlt; simpl; lia | intro E; discriminate E].
  - apply H1. reflexivity.
  - apply H0; [reflexivity | cbn; lia].
Defined.

(** ** The section text of [Debug.draw] *)

Lemma string_append_assoc (a b c : string) :
  String.append (String.append a b) c = String.append a (String.append b c).
Proof. induction a as [|x a IH]; cbn; [reflexivity|now rewrite IH]. Qed.

Lemma string_append_empty (a : string) : String.append a "" = a.
Proof. induction a as [|x a IH]; cbn; [reflexivity|now rewrite IH]. Qed.

Lemma string_length_append (a b : string) :
  String.length (String.append a b)
  = (String.length a + String.length b)%nat.
Proof. induction a as [|x a IH]; cbn; [reflexivity|now rewrite IH]. Qed.

Lemma string_substring_prefix (a b : string) :
  String.substring 0 (String.length a) (String.append a b) = a.
Proof. induction a as [|x a IH]; cbn; [now destruct b|now rewrite IH]. Qed.

Lemma sectionLabels_loop_acc (now : Q) (sections : list SectionObj) :
  forall acc,
    Debug.sectionLabels_loop now sections acc
    = String.append acc (Debug.sectionLabels_loop now sections "").
Proof.
  induction sections as [|sec rest IH]; intro acc;
    cbn [Debug.sectionLabels_loop].
  - now rewrite string_append_empty.
  - destruct (eval_condition now sec).
    + rewrite IH.
      rewrite (IH (String.append "" (String.append (label sec) " - "))).
      cbn [String.append]. now rewrite !string_append_assoc.
    + apply IH.
Qed.

Lemma sectionLabels_loop_join (now : Q) (sections : list SectionObj) :
  Debug.sectionLabels_loop now sections ""
  = match filter (eval_condition now) sections with
    | [] => ""%string
    | active => String.append (String.concat " - " (map label active)) " - "
    end.
Proof.
  induction sections as [|sec rest IH]; [reflexivity|].
  cbn [Debug.sectionLabels_loop filter].
  destruct (eval_condition now sec); [|exact IH].
  rewrite sectionLabels_loop_acc, IH. cbn [String.append map].
  destruct (filter (eval_condition now) rest) as [|sec' rest'].
  - cbn [map String.concat]. now rewrite string_append_empty.
  - cbn [map String.concat]. now rewrite !string_append_assoc.
Qed.

(** X19.  The section line of the debug overlay is the labels of the
    sections whose condition holds at the playback time, in registration
    order, joined by [" - "]: the loop appends the separator after every
    label and the cut of three characters removes exactly the last one;
    with no section active the line is empty. *)
Theorem debug_section_line_is_join (now : Q) (sections : list SectionObj) :
  Debug.sectionLabels now sections
  = String.concat " - "
      (map label (filter (eval_condition now) sections)).
Proof.
  unfold Debug.sectionLabels. rewrite sectionLabels_loop_join.
  destruct (filter (eval_condition now) sections) as [|sec rest];
    [reflexivity|].
  set (j := String.concat " - " (map label (sec :: rest))).
  rewrite string_length_append.
  change (String.length " - ") with 3%nat.
  replace (String.length j + 3 - 3)%nat with (String.length j) by lia.
  replace (0 <? String.length j + 3)%nat with true
    by (symmetry; apply Nat.ltb_lt; lia).
  apply string_substring_prefix.
Qed.
